(** * Verification of the M110A interoperability test harness

    A shallow embedding of the decision logic of the harness scripts
    ([server/test_afc.py], [server/test_2400s_afc.py], [server/test_awgn.py],
    [server/debug_tcp.py], [compare_pcm.py], [analyze_preamble.py],
    [test_ref_pcm.py]) together with the properties the specification
    states about them.

    Conventions.  A Python [bytes] value is a [list byte]; a Python [int]
    is a [Z]; a [str] is a list of code points.  Sockets are replaced by
    the sequence of results their [recv] calls produce.  Python floats are
    IEEE binary64 values ([PrimFloat]) where the code only divides and
    compares them, and real numbers where it calls trigonometric
    functions. *)

From Stdlib Require Import ZArith QArith List Bool Lia Strings.Byte Ascii String.
From Stdlib Require Import Floats Sorted Permutation.
From Stdlib Require Import Reals Lra.
Import ListNotations.

Local Open Scope Z_scope.

(** ** Python sequences

    The operations the scripts use on [bytes] and [str] values, written
    once for a sequence of any element type with a boolean equality. *)

Module PySeq.
Section Seq.
Context {A : Type} (eqA : A -> A -> bool).

(** [x == y] *)
Fixpoint eqb (x y : list A) : bool :=
  match x, y with
  | [], [] => true
  | a :: x', b :: y' => eqA a b && eqb x' y'
  | _, _ => false
  end.

(** [s.startswith(pat)] *)
Fixpoint starts_with (pat s : list A) : bool :=
  match pat, s with
  | [], _ => true
  | p :: pat', c :: s' => eqA p c && starts_with pat' s'
  | _ :: _, [] => false
  end.

(** [pat in s] *)
Fixpoint contains (pat s : list A) : bool :=
  starts_with pat s ||
  match s with
  | [] => false
  | _ :: s' => contains pat s'
  end.

(** [s.find(pat)]: the lowest index where [pat] occurs, or [-1]. *)
Fixpoint find (pat s : list A) : Z :=
  if starts_with pat s then 0
  else match s with
       | [] => -1
       | _ :: s' => let r := find pat s' in if r <? 0 then -1 else r + 1
       end.

(** [sum(1 for a, b in zip(x, y) if a != b)]; [zip] stops at the
    shorter argument. *)
Fixpoint mismatches (x y : list A) : Z :=
  match x, y with
  | a :: x', b :: y' => (if eqA a b then 0 else 1) + mismatches x' y'
  | _, _ => 0
  end.

(** The number of positions, among those both sequences have, where
    they differ ([d] is a filler for [nth]). *)
Definition differ_at (x y : list A) (d : A) (i : nat) : bool :=
  negb (eqA (nth i x d) (nth i y d)).

Definition mismatch_positions (x y : list A) (d : A) : Z :=
  Z.of_nat (List.length
              (filter (differ_at x y d)
                      (seq 0 (Nat.min (List.length x) (List.length y))))).

End Seq.

(** [len(x)] *)
Definition len {A} (x : list A) : Z := Z.of_nat (List.length x).

(** Truth value of a sequence: [if x:] *)
Definition truthy {A} (x : list A) : bool :=
  match x with [] => false | _ :: _ => true end.

(** [x[:len(y)]] and [x[len(y):]] *)
Definition upto {A B} (x : list A) (y : list B) : list A :=
  firstn (List.length y) x.
Definition from {A B} (x : list A) (y : list B) : list A :=
  skipn (List.length y) x.

End PySeq.

(** [bytes] objects. *)
Module PyBytes.
Export PySeq.

Definition bytes := list byte.

(** [b"..."] literals. *)
Definition lit (s : string) : bytes := list_byte_of_string s.

Definition eqb : bytes -> bytes -> bool := PySeq.eqb Byte.eqb.
Definition contains : bytes -> bytes -> bool := PySeq.contains Byte.eqb.
Definition mismatches : bytes -> bytes -> Z := PySeq.mismatches Byte.eqb.

(** [sum(1 for b in x if b != 0)] *)
Fixpoint count_nonzero (x : bytes) : Z :=
  match x with
  | [] => 0
  | b :: x' => (if Byte.eqb b x00 then 0 else 1) + count_nonzero x'
  end.

(** The positions both sequences have, where they differ. *)
Definition differing_positions (R S : bytes) : Z :=
  PySeq.mismatch_positions Byte.eqb R S x00.

End PyBytes.

(** [str] objects, as sequences of code points. *)
Module PyStr.
Export PySeq.

Definition str := list N.

(** ["..."] literals (ASCII). *)
Definition lit (s : string) : str := map N_of_ascii (list_ascii_of_string s).

Definition eqb : str -> str -> bool := PySeq.eqb N.eqb.
Definition contains : str -> str -> bool := PySeq.contains N.eqb.
Definition find : str -> str -> Z := PySeq.find N.eqb.

(** [c.isspace()]: the characters [strip()] removes. *)
Definition isspace (c : N) : bool :=
  ((9 <=? c) && (c <=? 13) || (28 <=? c) && (c <=? 32) ||
   (c =? 133) || (c =? 160) || (c =? 5760) ||
   (8192 <=? c) && (c <=? 8202) || (c =? 8232) || (c =? 8233) ||
   (c =? 8239) || (c =? 8287) || (c =? 12288))%N.

Fixpoint lstrip (s : str) : str :=
  match s with
  | c :: s' => if isspace c then lstrip s' else s
  | [] => []
  end.

(** [s.strip()] *)
Definition strip (s : str) : str := rev (lstrip (rev (lstrip s))).

(** [s.split('\n')[0]]: the text before the first line feed. *)
Fixpoint first_line (s : str) : str :=
  match s with
  | [] => []
  | c :: s' => if (c =? 10)%N then [] else c :: first_line s'
  end.

(** [s[i:]] for [i >= 0] *)
Definition slice_from (s : str) (i : Z) : str := skipn (Z.to_nat i) s.

(** [chunk.decode()] on the control port's ASCII text: a byte below
    0x80 is its own code point.  A chunk holding a byte from 0x80 up is
    reported as undecodable (the strict decoder raises on a malformed
    sequence; well-formed multi-byte sequences do not occur in the
    protocol's lines and are not modelled). *)
Fixpoint decode (b : list byte) : option str :=
  match b with
  | [] => Some []
  | c :: b' =>
      if (Byte.to_N c <? 128)%N
      then option_map (cons (Byte.to_N c)) (decode b')
      else None
  end.

End PyStr.

(** The words the scripts print as a test case's verdict. *)
Inductive verdict := PASS | FAIL | PARTIAL.

(** ** server/test_afc.py: verdict of [test_freq_offset] *)

Module TestAfc.
Import PyBytes.

Definition test_data : bytes := lit "AFC Test Message 12345".

(** The line printed for the case, with the numbers it shows. *)
Inductive outcome :=
| PassExact (received : Z)
| PassTrailing (received trailing : Z)
| FailGarbage (non_zero : Z)
| FailBER (errors denominator got : Z)
| FailNoData.

(** Lines 113-136, for a sent message [test_data] and the bytes
    [rx_data] collected from the data port. *)
Definition check_result (test_data rx_data : bytes) : outcome :=
  if eqb rx_data test_data then
    PassExact (len rx_data)
  else if truthy rx_data && eqb (upto rx_data test_data) test_data then
    let trailing := from rx_data test_data in
    let non_zero := count_nonzero trailing in
    if non_zero <=? 5 then PassTrailing (len test_data) (len trailing)
    else FailGarbage non_zero
  else if truthy rx_data then
    let errors := mismatches rx_data test_data in
    let errors := errors + Z.max 0 (len test_data - len rx_data) in
    FailBER errors (Z.max (len test_data) 1) (len rx_data)
  else FailNoData.

(** The function's return value. *)
Definition returns (o : outcome) : bool :=
  match o with
  | PassExact _ | PassTrailing _ _ => true
  | _ => false
  end.

Definition verdict_of (o : outcome) : verdict :=
  if returns o then PASS else FAIL.

(** The error count behind the printed rate, when one is computed. *)
Definition reported_errors (o : outcome) : option Z :=
  match o with
  | FailBER errors _ _ => Some errors
  | _ => None
  end.

End TestAfc.

(** ** server/test_2400s_afc.py: verdict of [test_with_verbose] *)

Module Test2400sAfc.
Import PyBytes.

Definition test_data : bytes := lit "Test123".

Inductive outcome :=
| PassZeros (trailing : Z)
| Partial (non_zero : Z)
| PassExact
| Fail (errors : Z).

(** Lines 126-139. *)
Definition check_result (test_data rx_data : bytes) : outcome :=
  if eqb (upto rx_data test_data) test_data then
    let non_zero := count_nonzero (from rx_data test_data) in
    if non_zero =? 0 then PassZeros (len rx_data - len test_data)
    else Partial non_zero
  else if eqb rx_data test_data then PassExact
  else
    let errors := mismatches rx_data test_data in
    let errors := errors + Z.abs (len rx_data - len test_data) in
    Fail errors.

Definition verdict_of (o : outcome) : verdict :=
  match o with
  | PassZeros _ | PassExact => PASS
  | Partial _ => PARTIAL
  | Fail _ => FAIL
  end.

Definition reported_errors (o : outcome) : option Z :=
  match o with
  | Fail errors => Some errors
  | _ => None
  end.

(** Replies used in the examples: the message followed by one byte
    0x01 and by six of them, and the message with its first byte wrong
    and one byte too many. *)
Definition one_garbage_byte : bytes := test_data ++ [x01].
Definition six_garbage_bytes : bytes :=
  test_data ++ [x01; x01; x01; x01; x01; x01].
Definition one_wrong_one_extra : bytes := lit "Xest1234".

End Test2400sAfc.

(** ** server/test_awgn.py: verdict of [test_awgn] *)

Module TestAwgn.
Import PyBytes.

Definition test_data : bytes := lit "Test Message 12345".

(** A reply of the message's length whose first byte is wrong. *)
Definition one_wrong_byte : bytes := lit "Xest Message 12345".

Inductive outcome :=
| Pass
| Fail (errors first : Z).

(** Lines 113-119. *)
Definition check_result (test_data rx_data : bytes) : outcome :=
  if eqb (upto rx_data test_data) test_data then Pass
  else
    let errors := mismatches rx_data test_data in
    Fail errors (Z.min (len rx_data) (len test_data)).

Definition verdict_of (o : outcome) : verdict :=
  match o with Pass => PASS | Fail _ _ => FAIL end.

End TestAwgn.

(** ** The wait for the capture filename

    The loop that follows [CMD:SENDBUFFER] in [server/test_afc.py]
    (lines 51-69), [server/test_2400s_afc.py] (53-72),
    [server/test_awgn.py] (49-67) and [server/debug_tcp.py] (61-83).
    The first three differ only in what they print.  [debug_tcp.py]
    also decodes every chunk it receives in order to print it (line
    72), so there a chunk that is not text raises UnicodeDecodeError
    even without the marker: the loop below is that script's on chunks
    of ASCII text only. *)

Module CaptureWait.
Import PyBytes.

(** What one [ctrl.recv(4096)] produces: some bytes (none when the peer
    has closed), or [socket.timeout]. *)
Inductive recv_result :=
| Recv (chunk : bytes)
| Timeout.

Inductive result :=
| Done (pcm_file : option PyStr.str)
| UnicodeDecodeError.

(** The body of [if b'FILE:' in chunk:], giving the new [pcm_file]. *)
Definition extract (chunk : bytes) (pcm_file : option PyStr.str)
  : option (option PyStr.str) :=
  match PyStr.decode chunk with
  | None => None
  | Some text =>
      let idx := PyStr.find (PyStr.lit "FILE:") text in
      if 0 <=? idx
      then Some (Some (PyStr.first_line
                         (PyStr.strip (PyStr.slice_from text (idx + 5)))))
      else Some pcm_file
  end.

(** The loop, run on the results of the [recv] calls it gets to make
    before [time.time() - start < 15] fails: the list ends where the
    deadline cuts the loop off. *)
Fixpoint wait_loop (recvs : list recv_result) (response : bytes)
         (pcm_file : option PyStr.str) : result :=
  match recvs with
  | [] => Done pcm_file
  | Timeout :: _ => Done pcm_file
  | Recv chunk :: rest =>
      if truthy chunk then
        let response := response ++ chunk in
        let continue pcm_file :=
          if contains (lit "OK:SENDBUFFER") response
          then Done pcm_file
          else wait_loop rest response pcm_file in
        if contains (lit "FILE:") chunk then
          match extract chunk pcm_file with
          | None => UnicodeDecodeError
          | Some pcm_file => continue pcm_file
          end
        else continue pcm_file
      else wait_loop rest response pcm_file
  end.

Definition wait_for_pcm_file (recvs : list recv_result) : result :=
  wait_loop recvs [] None.

(** [if not pcm_file:] -- no name, or an empty one, is no capture. *)
Definition capture_file (r : result) : option PyStr.str :=
  match r with
  | Done (Some (c :: name)) => Some (c :: name)
  | _ => None
  end.

(** The server's answer used in the examples: the line announcing the
    capture, then the acknowledgement. *)
Definition LF : string := String (ascii_of_nat 10) EmptyString.
Definition path : string := "tx_2400S_20251206_202547_345.pcm".
Definition answer : string :=
  ("FILE:" ++ path ++ LF ++ "OK:SENDBUFFER" ++ LF)%string.

(** The answer in one chunk, and the same bytes with the first chunk
    ending inside the marker. *)
Definition whole : list recv_result := [Recv (lit answer)].
Definition split : list recv_result :=
  [Recv (firstn 2 (lit answer)); Recv (skipn 2 (lit answer))].

End CaptureWait.

(** ** test_ref_pcm.py: verdict of [test_mode] *)

Module TestRefPcm.
Import PyStr.

Definition EXPECTED_MSG : str :=
  lit "THE QUICK BROWN FOX JUMPS OVER THE LAZY DOG 1234567890".

(** Lines 146-148, on the text decoded from the data port. *)
Definition has_expected_content (decoded : str) : bool :=
  contains (lit "QUICK BROWN FOX") decoded ||
  contains (lit "THE QUICK BROWN FOX") decoded.

Definition success (decoded : str) : bool :=
  (len decoded >? 0) && has_expected_content decoded.

(** Line 149: [{'PASS' if success else 'FAIL'}] *)
Definition verdict_of (decoded : str) : verdict :=
  if success decoded then PASS else FAIL.

(** [needle] occurs in [s]. *)
Definition occurs_in (needle s : str) : Prop :=
  exists pre post, s = pre ++ needle ++ post.

End TestRefPcm.

(** ** compare_pcm.py *)

Module ComparePcm.
Import PyBytes.

(** *** Errors *)

Inductive error :=
| StructError   (* struct.error: the buffer does not fit the format *)
| ValueError.   (* a reduction or argmax over an empty array *)

Inductive result (A : Type) :=
| Ok (a : A)
| Raise (e : error).
Arguments Ok {A} a.
Arguments Raise {A} e.

Definition bind {A B} (r : result A) (k : A -> result B) : result B :=
  match r with
  | Ok a => k a
  | Raise e => Raise e
  end.

Notation "x <- r ;; k" := (bind r (fun x => k))
  (at level 61, r at next level, right associativity).

(** *** [analyze_pcm] *)

(** One [h] field of the format: 16 bits, little-endian, signed. *)
Definition int16 (lo hi : byte) : Z :=
  let u := Z.of_N (Byte.to_N lo) + 256 * Z.of_N (Byte.to_N hi) in
  if u <? 32768 then u else u - 65536.

Fixpoint fields_h (data : bytes) : list Z :=
  match data with
  | lo :: hi :: rest => int16 lo hi :: fields_h rest
  | _ => []
  end.

(** [struct.unpack(f'<{n}h', data)]: the buffer must hold exactly the
    [2 * n] bytes the format describes. *)
Definition struct_unpack_h (n : Z) (data : bytes) : result (list Z) :=
  if len data =? 2 * n then Ok (fields_h data) else Raise StructError.

(** [np.min] and [np.max]: no value for an empty array. *)
Definition np_min (a : list Z) : result Z :=
  match a with
  | [] => Raise ValueError
  | x :: a' => Ok (fold_left Z.min a' x)
  end.

Definition np_max (a : list Z) : result Z :=
  match a with
  | [] => Raise ValueError
  | x :: a' => Ok (fold_left Z.max a' x)
  end.

(** [np.sum(cond)] for a boolean array. *)
Definition np_count (cond : Z -> bool) (a : list Z) : Z :=
  len (filter cond a).

(** [np.argmax] over [magnitude[10:]], of which only the existence
    matters here: the spectrum of [n] samples has [n // 2 + 1] bins. *)
Definition overall_peak_search (num_samples : Z) : result unit :=
  if num_samples / 2 + 1 <=? 10 then Raise ValueError else Ok tt.

(** An integer as a binary64 value; exact for integers from 0 to 2^53. *)
Definition float_of_int (z : Z) : float :=
  PrimFloat.of_uint63 (Uint63.of_Z z).

(** Lines 80-83: [100 * count / num_samples], an integer product
    divided in binary64. *)
Definition pct (count num_samples : Z) : float :=
  (float_of_int (100 * count) / float_of_int num_samples)%float.

(** The fields of the report that are integers, and the percentages.
    The remaining fields (duration, DC offset, RMS, crest factor, the
    frequency estimates) are floating-point values computed from the
    same samples; none of them raises once the steps below have
    succeeded. *)
Record report := {
  size : Z;
  samples : Z;
  min_sample : Z;
  max_sample : Z;
  peak : Z;
  silent : Z;
  low : Z;
  med : Z;
  high : Z;
  silent_pct : float;
  low_pct : float;
  med_pct : float;
  high_pct : float
}.

Definition analyze_pcm (data : bytes) : result report :=
  let num_samples := len data / 2 in
  samples <- struct_unpack_h num_samples data ;;
  min_sample <- np_min samples ;;
  max_sample <- np_max samples ;;
  let peak := Z.max (Z.abs min_sample) (Z.abs max_sample) in
  _ <- overall_peak_search num_samples ;;
  let abs_samples := map Z.abs samples in
  let silent := np_count (fun x => x <? 100) abs_samples in
  let low := np_count (fun x => (100 <=? x) && (x <? 3000)) abs_samples in
  let med := np_count (fun x => (3000 <=? x) && (x <? 10000)) abs_samples in
  let high := np_count (fun x => 10000 <=? x) abs_samples in
  Ok {| size := len data;
        samples := num_samples;
        min_sample := min_sample;
        max_sample := max_sample;
        peak := peak;
        silent := silent;
        low := low;
        med := med;
        high := high;
        silent_pct := pct silent num_samples;
        low_pct := pct low num_samples;
        med_pct := pct med num_samples;
        high_pct := pct high num_samples |}.

(** Twenty samples of silence: the shortest kind of capture the
    analyzer reports on. *)
Definition silence : bytes := repeat x00 40.

(** The report on it. *)
Definition silent_capture_report : report :=
  {| size := 40; samples := 20; min_sample := 0; max_sample := 0;
     peak := 0; silent := 20; low := 0; med := 0; high := 0;
     silent_pct := pct 20 20; low_pct := pct 0 20;
     med_pct := pct 0 20; high_pct := pct 0 20 |}.

(** *** The spectral peak list (lines 50-52 and 75)

    The spectrum is the output of the external FFT: [magnitude] holds
    one non-negative number per bin and [freqs] the bin frequencies.
    Both are taken as exact rationals. *)

Definition Qlt_bool (x y : Q) : bool := negb (Qle_bool y x).


(** A bin: its index and its magnitude. *)
Definition bin : Type := nat * Q.

Definition enumerate (magnitude : list Q) : list bin :=
  combine (seq 0 (List.length magnitude)) magnitude.

(** Ascending sort by magnitude that keeps equal magnitudes in index
    order.  (numpy leaves the order of equal keys open.) *)
Fixpoint insert (x : bin) (l : list bin) : list bin :=
  match l with
  | [] => [x]
  | y :: l' => if Qle_bool (snd x) (snd y) then x :: l else y :: insert x l'
  end.

Fixpoint sort (l : list bin) : list bin :=
  match l with
  | [] => []
  | x :: l' => insert x (sort l')
  end.

(** [np.argsort(magnitude)] *)
Definition argsort (magnitude : list Q) : list nat :=
  map fst (sort (enumerate magnitude)).

(** [a[-k:]] *)
Definition last_n {A} (k : nat) (a : list A) : list A :=
  skipn (List.length a - k) a.

(** [freqs[i] > 100] *)
Definition above_100 (freqs : list Q) (i : nat) : bool :=
  Qlt_bool 100 (nth i freqs 0%Q).

Definition peak_at (freqs magnitude : list Q) (i : nat) : Q * Q :=
  (nth i freqs 0%Q, nth i magnitude 0%Q).

(** Lines 51-52. *)
Definition top_indices (magnitude : list Q) : list nat :=
  rev (last_n 10 (argsort magnitude)).

Definition top_freqs (freqs magnitude : list Q) : list (Q * Q) :=
  map (peak_at freqs magnitude)
      (filter (above_100 freqs) (top_indices magnitude)).

(** Line 75: the report's ['top_freqs'] entry. *)
Definition reported_top_freqs (freqs magnitude : list Q) : list (Q * Q) :=
  firstn 5 (top_freqs freqs magnitude).

(** What [np.argsort(magnitude)] may return: the indices of the bins,
    each once, in an order in which the magnitude never decreases.  Bins
    of equal magnitude may come in any order; [argsort] above is the
    arrangement that keeps them in index order. *)
Fixpoint ascending (magnitude : list Q) (order : list nat) : bool :=
  match order with
  | i :: (j :: _) as rest =>
      Qle_bool (nth i magnitude 0%Q) (nth j magnitude 0%Q)
      && ascending magnitude rest
  | _ => true
  end.

Fixpoint distinct (l : list nat) : bool :=
  match l with
  | [] => true
  | i :: l' => negb (existsb (Nat.eqb i) l') && distinct l'
  end.

Definition is_argsort (magnitude : list Q) (order : list nat) : bool :=
  (List.length order =? List.length magnitude)%nat
  && forallb (fun i => (i <? List.length magnitude)%nat) order
  && distinct order
  && ascending magnitude order.

(** Lines 51-52 and 75 again, on the order [np.argsort] returned. *)
Definition top_indices_of (order : list nat) : list nat :=
  rev (last_n 10 order).

Definition top_freqs_of (freqs magnitude : list Q) (order : list nat)
  : list (Q * Q) :=
  map (peak_at freqs magnitude)
      (filter (above_100 freqs) (top_indices_of order)).

Definition reported_of (freqs magnitude : list Q) (order : list nat)
  : list (Q * Q) :=
  firstn 5 (top_freqs_of freqs magnitude order).

(** Bin [i] is at least as strong as bin [j]. *)
Definition no_weaker (magnitude : list Q) (i j : nat) : Prop :=
  (nth j magnitude 0 <= nth i magnitude 0)%Q.

(** What the specification describes: the bins above 100 Hz, sorted by
    decreasing magnitude, cut to five. *)
Definition bins_above_100 (freqs magnitude : list Q) : list bin :=
  filter (fun b => above_100 freqs (fst b)) (enumerate magnitude).

Definition five_largest_above_100 (freqs magnitude : list Q)
  : list (Q * Q) :=
  map (peak_at freqs magnitude)
      (firstn 5 (rev (map fst (sort (bins_above_100 freqs magnitude))))).

(** The order the sort works by, and the two listings the properties
    below speak of: all bins, and the bins above 100 Hz, strongest
    first. *)
Definition le_bin (a b : bin) : Prop := Qle_bool (snd a) (snd b) = true.

Definition by_decreasing_magnitude (magnitude : list Q) : list nat :=
  rev (argsort magnitude).

Definition above_100_strongest_first (freqs magnitude : list Q) : list bin :=
  rev (sort (bins_above_100 freqs magnitude)).




(** *** [compare] (lines 117-129) *)

(** The report fields [compare] reads. *)
Record analysis := {
  rms : float;
  peak_freq_fft : float;
  dc_offset : float
}.

Inductive issue :=
| LargeRmsDifference
| PeakFrequencyDiffers
| HighDcOffset.

Definition rms_ratio (a b : analysis) : float := (rms a / rms b)%float.

Definition rms_check (a b : analysis) : list issue :=
  if (0 <? rms b)%float then
    let rms_ratio := rms_ratio a b in
    if ((rms_ratio <? 0.5) || (2 <? rms_ratio))%float
    then [LargeRmsDifference] else []
  else [].

Definition freq_check (a b : analysis) : list issue :=
  let freq_diff := PrimFloat.abs (peak_freq_fft a - peak_freq_fft b)%float in
  if (50 <? freq_diff)%float then [PeakFrequencyDiffers] else [].

Definition dc_check (a b : analysis) : list issue :=
  if ((500 <? PrimFloat.abs (dc_offset a)) ||
      (500 <? PrimFloat.abs (dc_offset b)))%float
  then [HighDcOffset] else [].

(** The [issues] list when the checks are done. *)
Definition compare (a b : analysis) : list issue :=
  rms_check a b ++ freq_check a b ++ dc_check a b.

Definition large_rms_flag (a b : analysis) : bool :=
  existsb (fun i => match i with LargeRmsDifference => true | _ => false end)
          (compare a b).

(** Two reports that differ only in level. *)
Definition with_rms (r : float) : analysis :=
  {| rms := r; peak_freq_fft := 1800; dc_offset := 0 |}.

End ComparePcm.

(** ** analyze_preamble.py *)

Module AnalyzePreamble.

(** Integers of magnitude below 2^53 are binary64 values, and the
    binary64 quotient of two of them has the integer part of the exact
    quotient.  Past this bound the quotient can round up to the next
    integer, as at [(20 * 2^50 - 1) / 2^50], which is 20.0 in binary64. *)
Definition binary64_exact : Z := 2 ^ 53.

(** Line 19: [int(sample_rate / baud_rate)].  Both rates are Python
    integers (48000 and 2400 unless the caller says otherwise); [/]
    raises ZeroDivisionError on a zero divisor, and [int] cuts the
    quotient's fraction off.  The definition gives the code's value for
    rates below [binary64_exact]; the properties proved of it are
    stated for such rates only. *)
Definition samples_per_symbol (sample_rate baud_rate : Z) : option Z :=
  if baud_rate =? 0 then None
  else Some (Z.quot sample_rate baud_rate).

(** What the specification names: [round(sample_rate / baud_rate)],
    the integer nearest to the ratio (the even one at a tie), for a
    positive [baud_rate]. *)
Definition round_ratio (sample_rate baud_rate : Z) : Z :=
  let q := sample_rate / baud_rate in
  let r := sample_rate mod baud_rate in
  if 2 * r <? baud_rate then q
  else if baud_rate <? 2 * r then q + 1
  else if Z.even q then q else q + 1.

(** *** The symbol decision (lines 59-63)

    The phase arithmetic is modelled on real numbers. *)

(** [np.angle(z)], the argument of [z = re + j im] in radians, in
    [(-pi, pi]]: the two-argument arctangent of [im] and [re]. *)
Definition np_angle (re im : R) : R :=
  if Rlt_dec 0 re then atan (im / re)
  else if Rlt_dec re 0 then
         if Rle_dec 0 im then atan (im / re) + PI else atan (im / re) - PI
  else if Rlt_dec 0 im then PI / 2
  else if Rlt_dec im 0 then - (PI / 2)
  else 0%R.

(** [np.round]: the nearest integer, the even one at a tie. *)
Definition np_round (x : R) : Z :=
  let f := Int_part x in
  let d := (x - IZR f)%R in
  if Rlt_dec d (1 / 2) then f
  else if Rlt_dec (1 / 2) d then f + 1
  else if Z.even f then f else f + 1.

(** Lines 62-63, for one symbol sample. *)
Definition phase (re im : R) : R := (np_angle re im * 180 / PI)%R.

Definition psk8_symbol (re im : R) : Z :=
  np_round (phase re im / 45) mod 8.

(** A phase given in degrees, in radians. *)
Definition radians (deg : R) : R := (deg * PI / 180)%R.

End AnalyzePreamble.

(** ** Reading from the sockets *)

Module Receive.
Import PyBytes.

(** [recv_all] ([server/test_afc.py] lines 11-22, and the same function
    in [test_2400s_afc.py], [test_awgn.py] and [debug_tcp.py]), on what
    the socket delivers; a socket that has nothing more to deliver makes
    the next [recv] raise [socket.timeout], like [Timeout]. *)
Fixpoint recv_loop (recvs : list CaptureWait.recv_result) (data : bytes)
  : bytes :=
  match recvs with
  | [] => data
  | CaptureWait.Timeout :: _ => data
  | CaptureWait.Recv chunk :: rest =>
      if truthy chunk then recv_loop rest (data ++ chunk) else data
  end.

Definition recv_all (recvs : list CaptureWait.recv_result) : bytes :=
  recv_loop recvs [].

(** The wait for the decoded bytes ([server/test_afc.py] lines 84-105;
    [test_awgn.py] 81-101 and [test_2400s_afc.py] 88-114 differ in what
    they print).  Each round first reads the control socket, and leaves
    the loop when the chunk read contains [COMPLETE]; otherwise it reads
    the data socket once.  [ctrl] holds the results of the control reads
    the deadline leaves time for, [data] what the data socket delivers,
    read by read.  The result is [rx_data] and [got_complete]. *)
Definition has_complete (r : CaptureWait.recv_result) : bool :=
  match r with
  | CaptureWait.Recv chunk => truthy chunk && contains (lit "COMPLETE") chunk
  | CaptureWait.Timeout => false
  end.

Definition data_read (data : list CaptureWait.recv_result) (rx_data : bytes)
  : bytes * list CaptureWait.recv_result :=
  match data with
  | [] => (rx_data, [])
  | CaptureWait.Timeout :: data' => (rx_data, data')
  | CaptureWait.Recv rx :: data' =>
      (if truthy rx then rx_data ++ rx else rx_data, data')
  end.

Fixpoint decode_wait (ctrl data : list CaptureWait.recv_result)
         (rx_data : bytes) : bytes * bool :=
  match ctrl with
  | [] => (rx_data, false)
  | c :: ctrl' =>
      if has_complete c then (rx_data, true)
      else let (rx_data, data) := data_read data rx_data in
           decode_wait ctrl' data rx_data
  end.

(** All the bytes a list of reads delivers. *)
Fixpoint delivered (recvs : list CaptureWait.recv_result) : bytes :=
  match recvs with
  | [] => []
  | CaptureWait.Recv chunk :: rest => chunk ++ delivered rest
  | CaptureWait.Timeout :: rest => delivered rest
  end.

End Receive.

(** ** test_ref_pcm.py: the control dialogue *)

Module TestRefPcmClient.
Import PyStr.

(** [recv_until] (lines 46-60), on the results of the reads the timeout
    leaves time for.  [None] stands for the [UnicodeDecodeError] of
    [decode]. *)
Fixpoint recv_until (pattern : str) (recvs : list CaptureWait.recv_result)
         (all_data : str) : option str :=
  match recvs with
  | [] => Some all_data
  | CaptureWait.Timeout :: rest => recv_until pattern rest all_data
  | CaptureWait.Recv chunk :: rest =>
      match decode chunk with
      | None => None
      | Some text =>
          let all_data := all_data ++ text in
          if contains pattern all_data then Some all_data
          else recv_until pattern rest all_data
      end
  end.

(** [s.split('\n')] *)
Fixpoint split_lf (s : str) : list str :=
  match s with
  | [] => [[]]
  | c :: s' =>
      if (c =? 10)%N then [] :: split_lf s'
      else match split_lf s' with
           | line :: lines => (c :: line) :: lines
           | [] => [[c]]
           end
  end.

(** Lines 106-115 of [test_mode]: the [for] loop over the lines, and
    the test around it. *)
Fixpoint first_status_line (lines : list str) : bool :=
  match lines with
  | [] => false
  | line :: rest =>
      if contains (lit "STATUS:RX:") line
      then negb (contains (lit "NO DCD") line)
      else first_status_line rest
  end.

Definition got_dcd (all_responses : str) : bool :=
  if contains (lit "STATUS:RX:") all_responses
  then first_status_line (split_lf all_responses)
  else false.

(** The keys of [REF_FILES], in the order of the dictionary. *)
Definition modes : list string :=
  ["75S"; "75L"; "150S"; "150L"; "300S"; "300L";
   "600S"; "600L"; "1200S"; "1200L"; "2400S"; "2400L"]%string.

(** [main] (lines 155-176), given what [test_mode] returns for each
    mode: the [results] it collects and the value it returns. *)
Definition results (test_mode : string -> bool) : list (string * bool) :=
  map (fun mode => (mode, test_mode mode)) modes.

Definition passed (results : list (string * bool)) : Z :=
  len (filter (fun r => snd r) results).

Definition main (test_mode : string -> bool) : bool :=
  let results := results test_mode in
  passed results =? len results.

(** A line that is no receiver status. *)
Definition no_status (line : str) : Prop :=
  contains (lit "STATUS:RX:") line = false.

End TestRefPcmClient.

(** *** What [recv_until] has seen after each read *)

Module ReadUntil.

(** The text of a list of reads, when all of it is ASCII. *)
Definition text_of (recvs : list CaptureWait.recv_result)
  : option PyStr.str :=
  PyStr.decode (Receive.delivered recvs).

(** After none of the chunks of [recvs] does the text received up to
    and including that chunk contain the pattern. *)
Definition no_match_during (pattern : PyStr.str)
           (recvs : list CaptureWait.recv_result) : Prop :=
  forall before chunk after t,
    recvs = before ++ CaptureWait.Recv chunk :: after ->
    text_of (before ++ [CaptureWait.Recv chunk]) = Some t ->
    PyStr.contains pattern t = false.

(** The same for a loop that starts with [acc] already received. *)
Definition quiet (pattern acc : PyStr.str)
           (recvs : list CaptureWait.recv_result) : Prop :=
  forall before chunk after t,
    recvs = before ++ CaptureWait.Recv chunk :: after ->
    text_of (before ++ [CaptureWait.Recv chunk]) = Some t ->
    PyStr.contains pattern (acc ++ t) = false.

(** The server's answer in three chunks, the pattern cut in two by the
    first and ended by the second. *)
Definition pattern : PyStr.str := PyStr.lit "RXAUDIOINJECT:COMPLETE".

Definition answer : list CaptureWait.recv_result :=
  [CaptureWait.Recv (PyBytes.lit "OK:RXAUDIOINJECT:COMP");
   CaptureWait.Timeout;
   CaptureWait.Recv (PyBytes.lit "LETE");
   CaptureWait.Recv (PyBytes.lit " STATUS:RX:NO DCD")].

End ReadUntil.

(** ** analyze_preamble.py: reading the capture and placing the symbols *)

Module PreambleSampling.
Import PyBytes.

(** [read_pcm_file] (lines 9-15): the samples divided by 32768, and the
    sample rate.  The quotients are exact in single precision. *)
Definition read_pcm_file (data : bytes) (sample_rate : Z)
  : ComparePcm.result (list Q * Z) :=
  ComparePcm.bind
    (ComparePcm.struct_unpack_h (len data / 2) data)
    (fun samples =>
       ComparePcm.Ok (map (fun s => (inject_Z s / 32768)%Q) samples,
                      sample_rate)).

(** Line 32: [min(4800, len(samples) - start_idx)] *)
Definition demod_len (num_samples start_idx : Z) : Z :=
  Z.min 4800 (num_samples - start_idx).

(** The length of [np.convolve(a, v, mode='valid')] for [a] of length
    [M] and [v] of length [N]; an empty argument is refused. *)
Definition convolve_valid_len (M N : Z) : option Z :=
  if (M =? 0) || (N =? 0) then None
  else Some (Z.max M N - Z.min M N + 1).

(** [range(n)] *)
Definition range (n : Z) : list Z := map Z.of_nat (seq 0 (Z.to_nat n)).

(** Lines 50-57: the indices at which the filtered baseband of length
    [filt_len] is sampled. *)
Definition center (samples_per_symbol i : Z) : Z :=
  i * samples_per_symbol + samples_per_symbol / 2.

Definition symbol_indices (filt_len samples_per_symbol : Z) : list Z :=
  let num_symbols := filt_len / samples_per_symbol in
  filter (fun idx => idx <? filt_len)
         (map (center samples_per_symbol) (range num_symbols)).

(** Lines 32-57 together: the indices sampled for a capture of
    [num_samples] samples whose signal starts at [start_idx]. *)
Definition preamble_indices (num_samples start_idx samples_per_symbol : Z)
  : option (list Z) :=
  option_map (fun filt_len => symbol_indices filt_len samples_per_symbol)
             (convolve_valid_len (demod_len num_samples start_idx)
                                 samples_per_symbol).

End PreambleSampling.

(** ** A capture line that can be read back

    What the properties of the wait loop ask of a path for it to be
    read back unchanged: it is not empty, it neither starts nor ends
    with a character [strip()] removes, and it holds no line feed. *)

Module CaptureLine.
Import PyStr.

Definition clean_path (path : str) : bool :=
  match path with
  | [] => false
  | c :: _ => negb (isspace c)
  end
  && negb (isspace (last path 32%N))
  && forallb (fun c => negb (c =? 10)%N) path.

(** No chunk holds the marker in full. *)
Definition no_marker (r : CaptureWait.recv_result) : Prop :=
  match r with
  | CaptureWait.Recv chunk =>
      PyBytes.contains (PyBytes.lit "FILE:") chunk = false
  | CaptureWait.Timeout => True
  end.

End CaptureLine.

(** ** compare_pcm.py: the bins behind the peak list *)

Module PeakList.
Import ComparePcm.

(** The bins the report lists, with their magnitudes: lines 51-52 and
    75 again, on bins instead of indices. *)
Definition listed (freqs magnitude : list Q) : list bin :=
  firstn 5 (filter (fun b => above_100 freqs (fst b))
                   (firstn 10 (rev (sort (enumerate magnitude))))).

End PeakList.

(** * Properties *)

(** ** Sequences *)

Module PySeqFacts.
Section Seq.
Context {A : Type} (eqA : A -> A -> bool).
Hypothesis eqA_eq : forall a b, eqA a b = true <-> a = b.

Lemma eqb_eq (x y : list A) : PySeq.eqb eqA x y = true <-> x = y.
Proof.
  revert y; induction x as [|a x IH]; intros [|b y]; simpl;
    try (split; [discriminate | congruence]); try tauto.
  rewrite andb_true_iff, eqA_eq, IH.
  split; [intros [-> ->]; reflexivity | intros [= -> ->]; auto].
Qed.

Lemma eqb_neq (x y : list A) : x <> y -> PySeq.eqb eqA x y = false.
Proof.
  intros H; destruct (PySeq.eqb eqA x y) eqn:E; [|reflexivity].
  apply eqb_eq in E; contradiction.
Qed.

Lemma starts_with_spec (pat s : list A) :
  PySeq.starts_with eqA pat s = true <-> exists post, s = pat ++ post.
Proof.
  revert s; induction pat as [|p pat IH]; intros s; simpl.
  - split; [exists s; reflexivity | reflexivity].
  - destruct s as [|c s].
    + split; [discriminate | intros [post H]; discriminate].
    + rewrite andb_true_iff, eqA_eq, IH. split.
      * intros [-> [post ->]]; exists post; reflexivity.
      * intros [post [= -> ->]]; split; [reflexivity | exists post; reflexivity].
Qed.

Lemma contains_spec (pat s : list A) :
  PySeq.contains eqA pat s = true <->
  exists pre post, s = pre ++ pat ++ post.
Proof.
  induction s as [|c s IH]; simpl; rewrite orb_true_iff, starts_with_spec.
  - split.
    + intros [[post H] | H]; [exists [], post; exact H | discriminate].
    + intros [pre [post H]]; left.
      destruct pre; [exists post; exact H | discriminate].
  - rewrite IH; split.
    + intros [[post H] | [pre [post H]]].
      * exists [], post; exact H.
      * exists (c :: pre), post; simpl; rewrite H; reflexivity.
    + intros [[|c' pre] [post H]].
      * left; exists post; exact H.
      * right; exists pre, post; simpl in H; congruence.
Qed.

Lemma filter_seq_shift (f : nat -> bool) (start n : nat) :
  List.length (filter f (seq (S start) n)) =
  List.length (filter (fun i => f (S i)) (seq start n)).
Proof.
  rewrite <- seq_shift, filter_map_swap, length_map; reflexivity.
Qed.

Lemma mismatches_positions (x y : list A) (d : A) :
  PySeq.mismatches eqA x y = PySeq.mismatch_positions eqA x y d.
Proof.
  unfold PySeq.mismatch_positions.
  revert y; induction x as [|a x IH]; intros [|b y];
    cbn [PySeq.mismatches List.length Nat.min seq filter]; try reflexivity.
  rewrite IH.
  assert (E : List.length (filter (PySeq.differ_at eqA (a :: x) (b :: y) d)
                                  (seq 1 (Nat.min (List.length x) (List.length y)))) =
              List.length (filter (PySeq.differ_at eqA x y d)
                                  (seq 0 (Nat.min (List.length x) (List.length y)))))
    by (rewrite filter_seq_shift; reflexivity).
  change (PySeq.differ_at eqA (a :: x) (b :: y) d 0) with (negb (eqA a b)).
  destruct (eqA a b); cbn [negb List.length]; rewrite E; lia.
Qed.

Lemma mismatches_bounds (x y : list A) :
  0 <= PySeq.mismatches eqA x y <= Z.min (PySeq.len x) (PySeq.len y).
Proof.
  unfold PySeq.len.
  revert y; induction x as [|a x IH]; intros [|b y]; simpl; try lia.
  specialize (IH y); destruct (eqA a b); lia.
Qed.

Lemma mismatches_same (x post : list A) :
  PySeq.mismatches eqA x (x ++ post) = 0.
Proof.
  induction x as [|a x IH]; simpl; [destruct post; reflexivity|].
  rewrite IH. destruct (eqA a a) eqn:E; [reflexivity|].
  assert (eqA a a = true) by (apply eqA_eq; reflexivity). congruence.
Qed.

(** What lies past the end of [y] is not compared. *)
Lemma mismatches_beyond (x extra y : list A) :
  (List.length y <= List.length x)%nat ->
  PySeq.mismatches eqA (x ++ extra) y = PySeq.mismatches eqA x y.
Proof.
  revert y; induction x as [|a x IH]; intros [|b y] H; simpl in *;
    try reflexivity; try lia.
  - destruct extra; reflexivity.
  - rewrite IH by lia; reflexivity.
Qed.

Lemma mismatches_all (x y : list A) :
  List.length x = List.length y ->
  Forall2 (fun a b => a <> b) x y ->
  PySeq.mismatches eqA x y = PySeq.len y.
Proof.
  unfold PySeq.len. intros _ H; induction H as [|a b x y Hab H IH]; simpl.
  - reflexivity.
  - rewrite IH.
    destruct (eqA a b) eqn:E; [apply eqA_eq in E; contradiction | lia].
Qed.

End Seq.

Lemma upto_app {A} (x post : list A) : PySeq.upto (x ++ post) x = x.
Proof.
  unfold PySeq.upto.
  rewrite firstn_app, Nat.sub_diag, firstn_all; simpl; apply app_nil_r.
Qed.

Lemma from_app {A} (x post : list A) : PySeq.from (x ++ post) x = post.
Proof.
  unfold PySeq.from.
  rewrite skipn_app, Nat.sub_diag, skipn_all; reflexivity.
Qed.

Lemma upto_short {A} (x post : list A) : PySeq.upto x (x ++ post) = x.
Proof.
  unfold PySeq.upto. apply firstn_all2. rewrite length_app; lia.
Qed.

Lemma app_neq {A} (x post : list A) : post <> [] -> x ++ post <> x.
Proof.
  intros H E. apply H.
  apply (app_inv_head x). rewrite app_nil_r; exact E.
Qed.

Lemma len_app {A} (x y : list A) :
  PySeq.len (x ++ y) = PySeq.len x + PySeq.len y.
Proof. unfold PySeq.len; rewrite length_app; lia. Qed.

Lemma byte_eqb_eq (a b : byte) : Byte.eqb a b = true <-> a = b.
Proof. split; [apply byte_dec_bl | apply byte_dec_lb]. Qed.

Lemma count_nonzero_nonneg (x : PyBytes.bytes) : 0 <= PyBytes.count_nonzero x.
Proof. induction x as [|b x IH]; simpl; [|destruct (Byte.eqb b x00)]; lia. Qed.

End PySeqFacts.

(** ** Verdicts on the received bytes *)

Module VerdictFacts.
Import PyBytes PySeqFacts.

Lemma bytes_eqb_eq (x y : bytes) : eqb x y = true <-> x = y.
Proof. apply eqb_eq, byte_eqb_eq. Qed.

Lemma bytes_eqb_neq (x y : bytes) : x <> y -> eqb x y = false.
Proof. apply eqb_neq, byte_eqb_eq. Qed.

Lemma bytes_eqb_refl (x : bytes) : eqb x x = true.
Proof. apply bytes_eqb_eq; reflexivity. Qed.

Lemma truthy_true (x : bytes) : x <> [] -> truthy x = true.
Proof. destruct x; [contradiction | reflexivity]. Qed.

Lemma upto_neq (S R : bytes) : upto R S <> S -> R <> S.
Proof.
  intros H ->. apply H. unfold upto. apply firstn_all.
Qed.

Lemma mismatches_differing (R S : bytes) :
  mismatches R S = differing_positions R S.
Proof. apply mismatches_positions. Qed.

(** The two trailing-byte policies, for a received sequence [S ++ T]
    that goes on after the sent message. *)
Lemma afc_trailing (S T : bytes) :
  T <> [] ->
  TestAfc.check_result S (S ++ T) =
  if count_nonzero T <=? 5
  then TestAfc.PassTrailing (len S) (len T)
  else TestAfc.FailGarbage (count_nonzero T).
Proof.
  intros HT. unfold TestAfc.check_result.
  rewrite (bytes_eqb_neq (S ++ T) S) by (apply app_neq; exact HT).
  rewrite truthy_true by (destruct S; [exact HT | discriminate]).
  rewrite upto_app, bytes_eqb_refl, from_app. reflexivity.
Qed.

Lemma verbose_trailing (S T : bytes) :
  Test2400sAfc.check_result S (S ++ T) =
  if count_nonzero T =? 0
  then Test2400sAfc.PassZeros (len T)
  else Test2400sAfc.Partial (count_nonzero T).
Proof.
  unfold Test2400sAfc.check_result.
  rewrite upto_app, bytes_eqb_refl, from_app, len_app.
  replace (len S + len T - len S) with (len T) by lia. reflexivity.
Qed.

Lemma afc_errors (S R : bytes) :
  upto R S <> S -> R <> [] ->
  TestAfc.check_result S R =
  TestAfc.FailBER (mismatches R S + Z.max 0 (len S - len R))
                  (Z.max (len S) 1) (len R).
Proof.
  intros Hpre Hne. unfold TestAfc.check_result.
  rewrite (bytes_eqb_neq R S) by (apply upto_neq; exact Hpre).
  rewrite (bytes_eqb_neq (upto R S) S) by exact Hpre.
  rewrite truthy_true by exact Hne. reflexivity.
Qed.

Lemma verbose_errors (S R : bytes) :
  upto R S <> S ->
  Test2400sAfc.check_result S R =
  Test2400sAfc.Fail (mismatches R S + Z.abs (len R - len S)).
Proof.
  intros Hpre. unfold Test2400sAfc.check_result.
  rewrite (bytes_eqb_neq (upto R S) S) by exact Hpre.
  rewrite (bytes_eqb_neq R S) by (apply upto_neq; exact Hpre).
  reflexivity.
Qed.

Lemma upto_beyond (S R extra : bytes) :
  (List.length S <= List.length R)%nat -> upto (R ++ extra) S = upto R S.
Proof.
  intros H. unfold upto. rewrite firstn_app.
  replace (List.length S - List.length R)%nat with 0%nat by lia.
  simpl. apply app_nil_r.
Qed.

End VerdictFacts.

Import PyBytes.

(** C2 (as amended).  When the received bytes are the sent message [S]
    followed by further bytes [T], [test_afc.py] gives PASS if at most 5
    bytes of [T] are non-zero and FAIL if 6 or more are;
    [test_2400s_afc.py] gives PASS only if no byte of [T] is non-zero and
    PARTIAL as soon as one is. *)
Theorem trailing_bytes_verdicts (S T : bytes) :
  T <> [] ->
  (count_nonzero T <= 5 ->
   TestAfc.verdict_of (TestAfc.check_result S (S ++ T)) = PASS) /\
  (6 <= count_nonzero T ->
   TestAfc.verdict_of (TestAfc.check_result S (S ++ T)) = FAIL) /\
  (count_nonzero T = 0 ->
   Test2400sAfc.verdict_of (Test2400sAfc.check_result S (S ++ T)) = PASS) /\
  (1 <= count_nonzero T ->
   Test2400sAfc.verdict_of (Test2400sAfc.check_result S (S ++ T)) = PARTIAL).
Proof.
  intros HT.
  rewrite VerdictFacts.afc_trailing by exact HT.
  rewrite VerdictFacts.verbose_trailing.
  repeat split; intros H.
  - apply Z.leb_le in H; rewrite H; reflexivity.
  - assert (E : (count_nonzero T <=? 5) = false) by (apply Z.leb_gt; lia).
    rewrite E; reflexivity.
  - rewrite H; reflexivity.
  - assert (E : (count_nonzero T =? 0) = false) by (apply Z.eqb_neq; lia).
    rewrite E; reflexivity.
Qed.

Lemma trailing_bytes_verdicts_witness :
  TestAfc.verdict_of
    (TestAfc.check_result Test2400sAfc.test_data
                          Test2400sAfc.one_garbage_byte) = PASS /\
  Test2400sAfc.verdict_of
    (Test2400sAfc.check_result Test2400sAfc.test_data
                               Test2400sAfc.one_garbage_byte) = PARTIAL.
Proof.
  destruct (trailing_bytes_verdicts Test2400sAfc.test_data [x01])
    as (H1 & _ & _ & H4); [discriminate|].
  split; [apply H1 | apply H4]; vm_compute; discriminate.
Defined.

(** C2, counterexample.  In [test_2400s_afc.py] one non-zero trailing
    byte already loses the PASS, and six of them give PARTIAL, not
    FAIL. *)
Lemma verbose_variant_has_no_tolerance :
  upto Test2400sAfc.one_garbage_byte Test2400sAfc.test_data
  = Test2400sAfc.test_data /\
  len Test2400sAfc.test_data < len Test2400sAfc.one_garbage_byte /\
  count_nonzero (from Test2400sAfc.one_garbage_byte Test2400sAfc.test_data) = 1 /\
  Test2400sAfc.verdict_of
    (Test2400sAfc.check_result Test2400sAfc.test_data
                               Test2400sAfc.one_garbage_byte)
    = PARTIAL /\
  count_nonzero (from Test2400sAfc.six_garbage_bytes Test2400sAfc.test_data)
  = 6 /\
  Test2400sAfc.verdict_of
    (Test2400sAfc.check_result Test2400sAfc.test_data
                               Test2400sAfc.six_garbage_bytes)
    = PARTIAL.
Proof. repeat split. Qed.

(** C4 (as amended).  When the received bytes [R] do not start with the
    sent message [S]: [test_afc.py] computes, for a non-empty [R], the
    number of differing positions among those both sequences have plus
    the shortfall [max(0, len(S) - len(R))], and no count at all for an
    empty [R]; [test_2400s_afc.py] reports the differing positions plus
    [|len(R) - len(S)|].  Bytes received past [len(S)] leave the first
    count unchanged and add one each to the second.  For sequences of
    equal length that differ everywhere both counts are [len(S)]. *)
Theorem byte_error_counts (S R : bytes) :
  upto R S <> S ->
  (R <> [] ->
   TestAfc.reported_errors (TestAfc.check_result S R) =
   Some (differing_positions R S + Z.max 0 (len S - len R))) /\
  (R = [] ->
   TestAfc.reported_errors (TestAfc.check_result S R) = None) /\
  Test2400sAfc.reported_errors (Test2400sAfc.check_result S R) =
  Some (differing_positions R S + Z.abs (len R - len S)) /\
  (forall extra, R <> [] -> len S <= len R ->
   TestAfc.reported_errors (TestAfc.check_result S (R ++ extra)) =
   TestAfc.reported_errors (TestAfc.check_result S R) /\
   Test2400sAfc.reported_errors (Test2400sAfc.check_result S (R ++ extra)) =
   Some (differing_positions R S + Z.abs (len R - len S)
         + len extra)) /\
  (len R = len S -> Forall2 (fun a b => a <> b) R S ->
   TestAfc.reported_errors (TestAfc.check_result S R) = Some (len S) /\
   Test2400sAfc.reported_errors (Test2400sAfc.check_result S R)
   = Some (len S)).
Proof.
  intros Hpre.
  pose proof (VerdictFacts.mismatches_differing R S) as HD.
  split; [|split; [|split; [|split]]].
  - intros Hne. rewrite VerdictFacts.afc_errors by assumption.
    simpl. rewrite HD. reflexivity.
  - intros ->. unfold TestAfc.check_result.
    destruct S; reflexivity.
  - rewrite VerdictFacts.verbose_errors by assumption.
    simpl. rewrite HD. reflexivity.
  - intros extra Hne Hlen.
    assert (Hl : (List.length S <= List.length R)%nat)
      by (unfold len in Hlen; lia).
    assert (Hpre' : upto (R ++ extra) S <> S)
      by (rewrite VerdictFacts.upto_beyond by exact Hl; exact Hpre).
    assert (Hne' : R ++ extra <> [])
      by (destruct R; [contradiction | discriminate]).
    rewrite !VerdictFacts.afc_errors, VerdictFacts.verbose_errors by assumption.
    unfold mismatches.
    rewrite PySeqFacts.mismatches_beyond by exact Hl.
    fold (mismatches R S). rewrite <- HD, PySeqFacts.len_app. simpl.
    assert (0 <= len extra) by apply Zle_0_nat.
    split; f_equal; lia.
  - intros Hlen HF.
    assert (Hne : R <> []).
    { intros ->. apply Hpre. unfold len in Hlen.
      destruct S; [reflexivity | discriminate]. }
    rewrite VerdictFacts.afc_errors, VerdictFacts.verbose_errors by assumption.
    unfold mismatches.
    rewrite (PySeqFacts.mismatches_all Byte.eqb PySeqFacts.byte_eqb_eq R S)
      by (try exact HF; unfold len in Hlen; lia).
    simpl. split; f_equal; lia.
Qed.

Lemma byte_error_counts_witness :
  TestAfc.reported_errors
    (TestAfc.check_result Test2400sAfc.test_data Test2400sAfc.one_wrong_one_extra)
  = Some 1 /\
  Test2400sAfc.reported_errors
    (Test2400sAfc.check_result Test2400sAfc.test_data
                               Test2400sAfc.one_wrong_one_extra)
  = Some 2.
Proof.
  destruct (byte_error_counts Test2400sAfc.test_data
                              Test2400sAfc.one_wrong_one_extra)
    as (H1 & _ & H3 & _); [discriminate|].
  rewrite H1, H3 by discriminate. split; reflexivity.
Defined.

(** C4, counterexample.  [test_2400s_afc.py] counts a received byte past
    the end of the sent message as an error: one wrong byte and one
    extra byte are reported as 2 differences, where mismatches plus
    shortfall is 1. *)
Lemma verbose_variant_counts_extra_bytes :
  upto Test2400sAfc.one_wrong_one_extra Test2400sAfc.test_data
  <> Test2400sAfc.test_data /\
  Test2400sAfc.one_wrong_one_extra <> Test2400sAfc.test_data /\
  differing_positions Test2400sAfc.one_wrong_one_extra Test2400sAfc.test_data
  + Z.max 0 (len Test2400sAfc.test_data
             - len Test2400sAfc.one_wrong_one_extra) = 1 /\
  Test2400sAfc.reported_errors
    (Test2400sAfc.check_result Test2400sAfc.test_data
                               Test2400sAfc.one_wrong_one_extra)
  = Some 2.
Proof. repeat split; discriminate. Qed.

(** C10.  In [test_awgn.py], for every reply [R] that does not start
    with the sent message [S], the verdict is FAIL and the errors
    reported are the positions, among those both sequences have, at
    which they differ, "in the first [min(len(R), len(S))] bytes".
    Bytes that were sent but never received are not counted: a reply
    that is a prefix of the message, the empty one included, is reported
    with 0 byte errors. *)
Theorem awgn_errors_over_common_positions (S R : bytes) :
  upto R S <> S ->
  TestAwgn.check_result S R
  = TestAwgn.Fail (differing_positions R S) (Z.min (len R) (len S)) /\
  TestAwgn.verdict_of (TestAwgn.check_result S R) = FAIL /\
  0 <= differing_positions R S <= Z.min (len R) (len S) /\
  (forall T, S = R ++ T ->
   TestAwgn.check_result S R = TestAwgn.Fail 0 (len R)).
Proof.
  intros Hpre.
  pose proof (VerdictFacts.mismatches_differing R S) as HD.
  assert (E : TestAwgn.check_result S R
              = TestAwgn.Fail (differing_positions R S)
                              (Z.min (len R) (len S))).
  { unfold TestAwgn.check_result.
    rewrite (VerdictFacts.bytes_eqb_neq (upto R S) S) by exact Hpre.
    rewrite HD. reflexivity. }
  rewrite E. split; [reflexivity|]. split; [reflexivity|]. split.
  - rewrite <- HD. apply PySeqFacts.mismatches_bounds.
  - intros T ->. rewrite <- HD. unfold mismatches.
    rewrite (PySeqFacts.mismatches_same Byte.eqb PySeqFacts.byte_eqb_eq).
    rewrite PySeqFacts.len_app.
    f_equal. pose proof (Zle_0_nat (List.length T)). unfold len. lia.
Qed.

(** For the message the script sends: nothing received at all gives 0
    errors in the first 0 bytes, and a full-length reply with one wrong
    byte gives 1 error in the first 18. *)
Lemma awgn_nothing_received :
  TestAwgn.check_result TestAwgn.test_data [] = TestAwgn.Fail 0 0 /\
  TestAwgn.check_result TestAwgn.test_data TestAwgn.one_wrong_byte
  = TestAwgn.Fail 1 18.
Proof.
  split.
  - destruct (awgn_errors_over_common_positions TestAwgn.test_data [])
      as (_ & _ & _ & H); [discriminate|].
    apply (H TestAwgn.test_data). reflexivity.
  - destruct (awgn_errors_over_common_positions
                TestAwgn.test_data TestAwgn.one_wrong_byte)
      as (H & _); [discriminate|].
    rewrite H. reflexivity.
Defined.

(** ** The wait for the capture filename *)

(** A chunk in which the marker is not found leaves [pcm_file] as it
    was, whatever the bytes received so far add up to. *)
Lemma wait_loop_without_marker (recvs : list CaptureWait.recv_result) :
  Forall (fun r => match r with
                   | CaptureWait.Recv chunk =>
                       contains (lit "FILE:") chunk = false
                   | CaptureWait.Timeout => True
                   end) recvs ->
  forall response pcm_file,
    CaptureWait.wait_loop recvs response pcm_file = CaptureWait.Done pcm_file.
Proof.
  induction 1 as [|r recvs Hr _ IH]; intros response pcm_file; simpl.
  - reflexivity.
  - destruct r as [chunk|]; [|reflexivity].
    rewrite Hr. destruct (truthy chunk); [|apply IH].
    destruct (contains (lit "OK:SENDBUFFER") (response ++ chunk));
      [reflexivity | apply IH].
Qed.

(** C1.  The same answer from the server in one chunk and in two: read
    whole, the loop finds the capture's name; with the first chunk
    ending after "FI", neither chunk contains the marker and the loop
    ends without a name. *)
Theorem file_marker_split_across_chunks :
  CaptureWait.wait_for_pcm_file CaptureWait.whole
  = CaptureWait.Done (Some (PyStr.lit CaptureWait.path)) /\
  CaptureWait.wait_for_pcm_file CaptureWait.split = CaptureWait.Done None /\
  CaptureWait.capture_file (CaptureWait.wait_for_pcm_file CaptureWait.split)
  = None.
Proof. vm_compute. repeat split. Qed.

(** ** The reference suite's verdict *)

Lemma str_contains_spec (pat s : PyStr.str) :
  PyStr.contains pat s = true <-> TestRefPcm.occurs_in pat s.
Proof. apply PySeqFacts.contains_spec, N.eqb_eq. Qed.

Lemma the_quick_brown_fox (s : PyStr.str) :
  PyStr.contains (PyStr.lit "THE QUICK BROWN FOX") s = true ->
  PyStr.contains (PyStr.lit "QUICK BROWN FOX") s = true.
Proof.
  rewrite !str_contains_spec. intros [pre [post ->]].
  exists (pre ++ PyStr.lit "THE "), post.
  rewrite <- app_assoc. reflexivity.
Qed.

(** C6.  [test_mode] prints PASS exactly when the decoded text is not
    empty and contains "QUICK BROWN FOX", and FAIL in every other case. *)
Theorem reference_suite_verdict (decoded : PyStr.str) :
  (TestRefPcm.verdict_of decoded = PASS <->
   decoded <> [] /\
   TestRefPcm.occurs_in (PyStr.lit "QUICK BROWN FOX") decoded) /\
  (TestRefPcm.verdict_of decoded = FAIL <->
   decoded = [] \/
   ~ TestRefPcm.occurs_in (PyStr.lit "QUICK BROWN FOX") decoded).
Proof.
  unfold TestRefPcm.verdict_of, TestRefPcm.success,
    TestRefPcm.has_expected_content.
  rewrite <- str_contains_spec.
  destruct (PyStr.contains (PyStr.lit "QUICK BROWN FOX") decoded) eqn:Q.
  - destruct decoded as [|c s]; simpl; split; split;
      try discriminate; try tauto; try (intros [? ?]; congruence);
      try (intros [?|?]; congruence).
    intros _; split; [discriminate | reflexivity].
  - destruct (PyStr.contains (PyStr.lit "THE QUICK BROWN FOX") decoded) eqn:T.
    + apply the_quick_brown_fox in T; congruence.
    + rewrite andb_false_r. split; split; try discriminate; try tauto.
      * intros [_ ?]; discriminate.
      * intros _; right; discriminate.
Qed.

(** ** Samples per symbol *)

(** C8 (as amended).  For a non-negative sample rate and a positive baud
    rate, both integers below 2^53, the decoder uses the integer part of
    their ratio; that is the nearest integer only when the fraction cut
    off is below one half (or is exactly one half under an even integer
    part). *)
Theorem samples_per_symbol_truncates (sample_rate baud_rate : Z) :
  0 <= sample_rate < AnalyzePreamble.binary64_exact ->
  0 < baud_rate < AnalyzePreamble.binary64_exact ->
  exists sps,
    AnalyzePreamble.samples_per_symbol sample_rate baud_rate = Some sps /\
    sps * baud_rate <= sample_rate < (sps + 1) * baud_rate /\
    (sps = AnalyzePreamble.round_ratio sample_rate baud_rate <->
     2 * (sample_rate - sps * baud_rate) < baud_rate \/
     (2 * (sample_rate - sps * baud_rate) = baud_rate /\ Z.even sps = true)).
Proof.
  intros [Hs _] [Hb _]. exists (sample_rate / baud_rate).
  unfold AnalyzePreamble.samples_per_symbol, AnalyzePreamble.round_ratio.
  assert (E : (baud_rate =? 0) = false) by (apply Z.eqb_neq; lia).
  rewrite E, Z.quot_div_nonneg by lia.
  pose proof (Z.div_mod sample_rate baud_rate ltac:(lia)) as Hdm.
  pose proof (Z.mod_pos_bound sample_rate baud_rate Hb) as Hm.
  set (q := sample_rate / baud_rate) in *.
  set (r := sample_rate mod baud_rate) in *.
  replace (sample_rate - q * baud_rate) with r by lia.
  split; [reflexivity|]. split; [lia|].
  destruct (Z.ltb_spec (2 * r) baud_rate); [intuition lia|].
  destruct (Z.ltb_spec baud_rate (2 * r)); [intuition lia|].
  destruct (Z.even q) eqn:Ev; [intuition lia|].
  split; [lia | intros [?|[_ ?]]; [lia | discriminate]].
Qed.

(** The defaults: 48000 Hz and 2400 baud give 20 samples per symbol. *)
Lemma samples_per_symbol_default :
  AnalyzePreamble.samples_per_symbol 48000 2400 = Some 20.
Proof.
  destruct (samples_per_symbol_truncates 48000 2400) as (sps & E & B & _);
    [unfold AnalyzePreamble.binary64_exact; lia
    |unfold AnalyzePreamble.binary64_exact; lia |].
  rewrite E. f_equal. lia.
Defined.

(** C8, counterexample.  At 44100 Hz and 1200 baud the ratio is 36.75:
    the decoder uses 36 samples per symbol, the nearest integer is 37. *)
Lemma samples_per_symbol_not_rounded :
  AnalyzePreamble.samples_per_symbol 44100 1200 = Some 36 /\
  AnalyzePreamble.round_ratio 44100 1200 = 37 /\
  AnalyzePreamble.samples_per_symbol 48000 2400 = Some 20.
Proof. repeat split. Qed.

(** ** The analyzer's inputs *)

Module AnalyzeFacts.
Import ComparePcm.

Lemma unpack_odd (data : bytes) :
  Z.odd (len data) = true ->
  struct_unpack_h (len data / 2) data = Raise StructError.
Proof.
  intros Hodd. unfold struct_unpack_h.
  destruct (Z.eqb_spec (len data) (2 * (len data / 2))) as [E|_];
    [|reflexivity].
  rewrite E, Z.odd_mul in Hodd. discriminate.
Qed.

Lemma unpack_ok (data : bytes) (samples : list Z) :
  struct_unpack_h (len data / 2) data = Ok samples ->
  Z.even (len data) = true /\ samples = fields_h data.
Proof.
  unfold struct_unpack_h.
  destruct (Z.eqb_spec (len data) (2 * (len data / 2))) as [E|_];
    [|discriminate].
  intros [= <-]. split; [|reflexivity].
  rewrite E, Z.even_mul. reflexivity.
Qed.

Lemma silence_report :
  analyze_pcm silence =
  Ok {| size := 40; samples := 20; min_sample := 0; max_sample := 0;
        peak := 0; silent := 20; low := 0; med := 0; high := 0;
        silent_pct := pct 20 20; low_pct := pct 0 20;
        med_pct := pct 0 20; high_pct := pct 0 20 |}.
Proof. reflexivity. Qed.

End AnalyzeFacts.

(** C9.  [analyze_pcm] raises [struct.error] for every input of odd
    length (the last byte is not dropped), raises for the empty input
    (at [np.min], before any report is built), and so returns a report
    only for inputs of even, non-zero length. *)
Theorem analyze_pcm_needs_even_nonempty (data : bytes) :
  (Z.odd (len data) = true ->
   ComparePcm.analyze_pcm data = ComparePcm.Raise ComparePcm.StructError) /\
  (data = [] ->
   ComparePcm.analyze_pcm data = ComparePcm.Raise ComparePcm.ValueError) /\
  (forall r, ComparePcm.analyze_pcm data = ComparePcm.Ok r ->
             Z.even (len data) = true /\ data <> [] /\
             ComparePcm.samples r = len data / 2).
Proof.
  split; [|split].
  - intros Hodd. unfold ComparePcm.analyze_pcm.
    rewrite AnalyzeFacts.unpack_odd by exact Hodd. reflexivity.
  - intros ->. reflexivity.
  - intros r. unfold ComparePcm.analyze_pcm.
    destruct (ComparePcm.struct_unpack_h (len data / 2) data)
      as [samples|e] eqn:U; [|discriminate].
    apply AnalyzeFacts.unpack_ok in U. destruct U as [Hev ->].
    cbn [ComparePcm.bind].
    destruct (ComparePcm.np_min (ComparePcm.fields_h data)) as [lo|] eqn:Hmin;
      [|discriminate].
    destruct (ComparePcm.np_max (ComparePcm.fields_h data)) as [hi|];
      [|discriminate].
    destruct (ComparePcm.overall_peak_search (len data / 2)); [|discriminate].
    cbn [ComparePcm.bind]. intros [= <-].
    split; [exact Hev|]. split; [|reflexivity].
    intros ->. discriminate.
Qed.

(** ** The order on binary64 values *)

Module FloatOrder.

Lemma SFcompare_antisym (x y : spec_float) :
  SFcompare y x = option_map CompOpp (SFcompare x y).
Proof.
  destruct x as [sx|sx| |sx mx ex], y as [sy|sy| |sy my ey]; simpl;
    try reflexivity;
    try (destruct sx; reflexivity); try (destruct sy; reflexivity);
    try (destruct sx, sy; reflexivity).
  destruct sx, sy; try reflexivity;
    change (Pos.compare_cont Eq mx my) with (Pos.compare mx my);
    change (Pos.compare_cont Eq my mx) with (Pos.compare my mx);
    rewrite (Z.compare_antisym ex ey), (Pos.compare_antisym mx my);
    destruct (ex ?= ey)%Z, (mx ?= my)%positive; reflexivity.
Qed.

Lemma ltb_asym (x y : float) :
  (x <? y)%float = true -> (y <? x)%float = false.
Proof.
  rewrite !ltb_spec. unfold SFltb.
  rewrite (SFcompare_antisym (Prim2SF x) (Prim2SF y)).
  destruct (SFcompare (Prim2SF x) (Prim2SF y)) as [[| |]|]; simpl;
    congruence.
Qed.

Lemma SFcompare_Eq_finite (x : spec_float) s m e :
  SFcompare x (S754_finite s m e) = Some Eq -> x = S754_finite s m e.
Proof.
  destruct x as [sx|sx| |sx mx ex]; simpl;
    try discriminate; try (destruct sx; discriminate);
    try (destruct s; discriminate).
  destruct sx, s; try discriminate;
    destruct (ex ?= e)%Z eqn:He; try discriminate;
    apply Z.compare_eq in He; subst ex;
    change (Pos.compare_cont Eq mx m) with (Pos.compare mx m);
    destruct (mx ?= m)%positive eqn:Hm; try discriminate;
    apply Pos.compare_eq in Hm; subst mx; reflexivity.
Qed.

(** A value that compares equal to a non-zero finite constant is that
    constant. *)
Lemma eqb_finite (x c : float) s m e :
  Prim2SF c = S754_finite s m e -> (x =? c)%float = true -> x = c.
Proof.
  intros Hc. rewrite eqb_spec, Hc. unfold SFeqb.
  destruct (SFcompare (Prim2SF x) (S754_finite s m e)) as [[| |]|] eqn:E;
    try discriminate.
  intros _. apply SFcompare_Eq_finite in E.
  rewrite <- (SF2Prim_Prim2SF x), <- (SF2Prim_Prim2SF c), E, Hc.
  reflexivity.
Qed.

End FloatOrder.

(** ** The level check of [compare] *)

Lemma large_rms_flag_rms_check (a b : ComparePcm.analysis) :
  ComparePcm.large_rms_flag a b =
  match ComparePcm.rms_check a b with [] => false | _ => true end.
Proof.
  unfold ComparePcm.large_rms_flag, ComparePcm.compare.
  rewrite !existsb_app.
  replace (existsb _ (ComparePcm.freq_check a b)) with false
    by (unfold ComparePcm.freq_check; destruct (_ <? _)%float; reflexivity).
  replace (existsb _ (ComparePcm.dc_check a b)) with false
    by (unfold ComparePcm.dc_check; destruct (_ || _); reflexivity).
  unfold ComparePcm.rms_check.
  destruct (0 <? ComparePcm.rms b)%float; [|reflexivity].
  cbv zeta.
  destruct ((ComparePcm.rms_ratio a b <? 0.5)
            || (2 <? ComparePcm.rms_ratio a b))%float; reflexivity.
Qed.

(** C3 (as amended).  With the second report's RMS positive, the "large
    RMS difference" issue is raised exactly when the ratio is below 0.5
    or above 2.0; a ratio equal to 0.5 or to 2.0 does not raise it, and
    neither does one strictly between them. *)
Theorem large_rms_flag_strict (a b : ComparePcm.analysis) :
  (0 <? ComparePcm.rms b)%float = true ->
  (ComparePcm.large_rms_flag a b = true <->
   (ComparePcm.rms_ratio a b <? 0.5)%float = true \/
   (2 <? ComparePcm.rms_ratio a b)%float = true) /\
  ((ComparePcm.rms_ratio a b =? 0.5)%float = true ->
   ComparePcm.large_rms_flag a b = false) /\
  ((ComparePcm.rms_ratio a b =? 2)%float = true ->
   ComparePcm.large_rms_flag a b = false) /\
  ((0.5 <? ComparePcm.rms_ratio a b)%float = true ->
   (ComparePcm.rms_ratio a b <? 2)%float = true ->
   ComparePcm.large_rms_flag a b = false).
Proof.
  intros Hb.
  assert (E : ComparePcm.large_rms_flag a b =
              ((ComparePcm.rms_ratio a b <? 0.5)
               || (2 <? ComparePcm.rms_ratio a b))%float).
  { rewrite large_rms_flag_rms_check. unfold ComparePcm.rms_check.
    rewrite Hb. cbv zeta. destruct (_ || _); reflexivity. }
  rewrite E. split; [apply orb_true_iff|]. split; [|split].
  - intros H. eapply FloatOrder.eqb_finite in H; [|reflexivity].
    rewrite H. reflexivity.
  - intros H. eapply FloatOrder.eqb_finite in H; [|reflexivity].
    rewrite H. reflexivity.
  - intros Hlo Hhi.
    rewrite (FloatOrder.ltb_asym _ _ Hlo), (FloatOrder.ltb_asym _ _ Hhi).
    reflexivity.
Qed.

(** Equal levels: the ratio is 1 and nothing is flagged. *)
Lemma large_rms_flag_equal_levels :
  ComparePcm.large_rms_flag (ComparePcm.with_rms 1000) (ComparePcm.with_rms 1000)
  = false.
Proof.
  destruct (large_rms_flag_strict (ComparePcm.with_rms 1000)
                                  (ComparePcm.with_rms 1000))
    as (_ & _ & _ & H); [reflexivity|].
  apply H; reflexivity.
Defined.

(** C3, counterexample.  An RMS of 1000 against one of 2000 is a ratio
    of exactly 0.5, and 4000 against 2000 one of exactly 2.0; neither
    raises the issue, and [compare] finds nothing to report. *)
Lemma rms_ratio_on_the_bound_not_flagged :
  (ComparePcm.rms_ratio (ComparePcm.with_rms 1000) (ComparePcm.with_rms 2000)
   =? 0.5)%float = true /\
  ComparePcm.compare (ComparePcm.with_rms 1000) (ComparePcm.with_rms 2000)
  = [] /\
  (ComparePcm.rms_ratio (ComparePcm.with_rms 4000) (ComparePcm.with_rms 2000)
   =? 2)%float = true /\
  ComparePcm.compare (ComparePcm.with_rms 4000) (ComparePcm.with_rms 2000)
  = [].
Proof. repeat split. Qed.

(** ** The spectral peak list *)

Module SpectrumFacts.
Import ComparePcm.

Lemma le_bin_trans (a b c : bin) : le_bin a b -> le_bin b c -> le_bin a c.
Proof.
  unfold le_bin. rewrite !Qle_bool_iff. apply Qle_trans.
Qed.

Lemma le_bin_total (a b : bin) :
  Qle_bool (snd a) (snd b) = false -> le_bin b a.
Proof.
  unfold le_bin. intros H. apply Qle_bool_iff, Qlt_le_weak, Qnot_le_lt.
  intros C. apply Qle_bool_iff in C. congruence.
Qed.

Lemma insert_first (x : bin) (l : list bin) :
  Forall (le_bin x) l -> insert x l = x :: l.
Proof.
  intros H. destruct H as [|y l Hy _]; simpl; [reflexivity|].
  unfold le_bin in Hy. rewrite Hy. reflexivity.
Qed.

Lemma insert_perm (x : bin) (l : list bin) : Permutation (x :: l) (insert x l).
Proof.
  induction l as [|y l IH]; simpl; [reflexivity|].
  destruct (Qle_bool (snd x) (snd y)); [reflexivity|].
  rewrite perm_swap. apply perm_skip, IH.
Qed.

Lemma sort_perm (l : list bin) : Permutation l (sort l).
Proof.
  induction l as [|x l IH]; simpl; [reflexivity|].
  rewrite <- insert_perm. apply perm_skip, IH.
Qed.

Lemma insert_sorted (x : bin) (l : list bin) :
  StronglySorted le_bin l -> StronglySorted le_bin (insert x l).
Proof.
  induction 1 as [|y l Hs IH Hy]; simpl.
  - constructor; constructor.
  - destruct (Qle_bool (snd x) (snd y)) eqn:E.
    + constructor; [constructor; assumption|].
      constructor; [exact E|].
      eapply Forall_impl; [|exact Hy].
      intros z Hz. eapply le_bin_trans; [exact E | exact Hz].
    + constructor; [exact IH|].
      eapply Permutation_Forall; [apply insert_perm|].
      constructor; [apply le_bin_total, E | exact Hy].
Qed.

Lemma sort_sorted (l : list bin) : StronglySorted le_bin (sort l).
Proof.
  induction l as [|x l IH]; simpl; [constructor | apply insert_sorted, IH].
Qed.

(** Sorting is stable, so it commutes with selecting bins. *)
Lemma filter_insert (p : bin -> bool) (x : bin) (l : list bin) :
  StronglySorted le_bin l ->
  filter p (insert x l) =
  if p x then insert x (filter p l) else filter p l.
Proof.
  induction 1 as [|y l Hs IH Hy]; simpl.
  - destruct (p x); reflexivity.
  - destruct (Qle_bool (snd x) (snd y)) eqn:E; simpl.
    + destruct (p x) eqn:Px; [|reflexivity].
      destruct (p y); simpl; [rewrite E; reflexivity|].
      symmetry. apply insert_first.
      apply incl_Forall with (l1 := l); [apply incl_filter|].
      eapply Forall_impl; [|exact Hy].
      intros z Hz. eapply le_bin_trans; [exact E | exact Hz].
    + rewrite IH. destruct (p y), (p x); simpl; try rewrite E; reflexivity.
Qed.

Lemma filter_sort (p : bin -> bool) (l : list bin) :
  filter p (sort l) = sort (filter p l).
Proof.
  induction l as [|x l IH]; simpl; [reflexivity|].
  rewrite filter_insert by apply sort_sorted.
  rewrite IH. destruct (p x); reflexivity.
Qed.

Lemma top_indices_firstn (magnitude : list Q) :
  top_indices magnitude = firstn 10 (by_decreasing_magnitude magnitude).
Proof.
  unfold top_indices, last_n, by_decreasing_magnitude.
  rewrite firstn_rev. reflexivity.
Qed.

Lemma five_largest_filter (freqs magnitude : list Q) :
  five_largest_above_100 freqs magnitude =
  map (peak_at freqs magnitude)
      (firstn 5 (filter (above_100 freqs)
                        (by_decreasing_magnitude magnitude))).
Proof.
  unfold five_largest_above_100, bins_above_100, by_decreasing_magnitude,
    argsort.
  rewrite <- filter_sort, <- filter_map_swap, <- filter_rev. reflexivity.
Qed.

Lemma reported_filter (freqs magnitude : list Q) :
  reported_top_freqs freqs magnitude =
  map (peak_at freqs magnitude)
      (firstn 5 (filter (above_100 freqs)
                        (firstn 10 (by_decreasing_magnitude magnitude)))).
Proof.
  unfold reported_top_freqs, top_freqs.
  rewrite top_indices_firstn, firstn_map. reflexivity.
Qed.

(** The reported list is always an initial part of the five largest
    bins above 100 Hz. *)
Lemma reported_prefix (freqs magnitude : list Q) :
  exists rest,
    five_largest_above_100 freqs magnitude =
    reported_top_freqs freqs magnitude ++ rest.
Proof.
  rewrite five_largest_filter, reported_filter.
  set (L := by_decreasing_magnitude magnitude).
  replace (filter (above_100 freqs) L)
    with (filter (above_100 freqs) (firstn 10 L ++ skipn 10 L))
    by (rewrite firstn_skipn; reflexivity).
  rewrite filter_app, firstn_app, map_app.
  eexists; reflexivity.
Qed.

(** *** What "the five largest above 100 Hz" contains *)

Lemma sorted_app {A} (R : A -> A -> Prop) (l1 l2 : list A) :
  StronglySorted R (l1 ++ l2) <->
  StronglySorted R l1 /\ StronglySorted R l2 /\
  (forall a b, In a l1 -> In b l2 -> R a b).
Proof.
  induction l1 as [|x l1 IH]; simpl.
  - split; [intros H; repeat split; [constructor | exact H | tauto] | tauto].
  - split.
    + intros H. apply StronglySorted_inv in H. destruct H as [H Hx].
      apply IH in H. destruct H as (H1 & H2 & H12).
      rewrite Forall_app in Hx. destruct Hx as [Hx1 Hx2].
      repeat split; [constructor; assumption | exact H2 |].
      intros a b [<-|Ha] Hb; [|apply H12; assumption].
      rewrite Forall_forall in Hx2. apply Hx2, Hb.
    + intros (H1 & H2 & H12).
      apply StronglySorted_inv in H1. destruct H1 as [H1 Hx].
      constructor.
      * apply IH. repeat split; try assumption.
        intros a b Ha Hb. apply H12; [right|]; assumption.
      * apply Forall_app. split; [exact Hx|].
        apply Forall_forall. intros b Hb.
        apply H12; [left; reflexivity | exact Hb].
Qed.

Lemma sorted_rev {A} (R : A -> A -> Prop) (l : list A) :
  StronglySorted R l -> StronglySorted (fun a b => R b a) (rev l).
Proof.
  induction 1 as [|x l Hs IH Hx]; simpl; [constructor|].
  apply sorted_app. repeat split; [exact IH | repeat constructor |].
  intros a b Ha [<-|[]]. apply in_rev in Ha.
  rewrite Forall_forall in Hx. apply Hx, Ha.
Qed.

(** [five_largest_above_100] lists the first five entries of a list that
    holds exactly the bins above 100 Hz, each once, in decreasing
    magnitude; no bin left out is larger than a bin listed. *)
Lemma five_largest_above_100_sound (freqs magnitude : list Q) :
  let all := above_100_strongest_first freqs magnitude in
  five_largest_above_100 freqs magnitude =
  map (peak_at freqs magnitude) (map fst (firstn 5 all)) /\
  Permutation all (bins_above_100 freqs magnitude) /\
  StronglySorted (fun a b => le_bin b a) all /\
  (forall a b, In a (firstn 5 all) -> In b (skipn 5 all) -> le_bin b a).
Proof.
  intros all. subst all. unfold above_100_strongest_first.
  set (B := sort (bins_above_100 freqs magnitude)).
  assert (HS : StronglySorted (fun a b => le_bin b a) (rev B))
    by (apply sorted_rev, sort_sorted).
  repeat split.
  - unfold five_largest_above_100. fold B.
    rewrite <- map_rev, firstn_map. reflexivity.
  - rewrite <- Permutation_rev. symmetry. apply sort_perm.
  - exact HS.
  - rewrite <- (firstn_skipn 5 (rev B)) in HS.
    apply sorted_app in HS. apply HS.
Qed.

End SpectrumFacts.


(** ** The symbol decision *)

Module PhaseFacts.
Import AnalyzePreamble.
Local Open Scope R_scope.

Lemma np_angle_scale (k re im : R) :
  0 < k -> np_angle (k * re) (k * im) = np_angle re im.
Proof.
  intros Hk. unfold np_angle.
  assert (Hq : re <> 0 -> k * im / (k * re) = im / re)
    by (intros; field; split; lra).
  destruct (Rlt_dec 0 re) as [Hre|Hre].
  - destruct (Rlt_dec 0 (k * re)) as [_|C]; [rewrite Hq by lra; reflexivity|].
    exfalso; apply C; nra.
  - destruct (Rlt_dec 0 (k * re)) as [C|_]; [exfalso; nra|].
    destruct (Rlt_dec re 0) as [Hre'|Hre'].
    + destruct (Rlt_dec (k * re) 0) as [_|C]; [|exfalso; apply C; nra].
      rewrite Hq by lra.
      destruct (Rle_dec 0 im), (Rle_dec 0 (k * im)); try reflexivity;
        exfalso; nra.
    + destruct (Rlt_dec (k * re) 0) as [C|_]; [exfalso; nra|].
      destruct (Rlt_dec 0 im), (Rlt_dec 0 (k * im)); try reflexivity;
        try (exfalso; nra).
      destruct (Rlt_dec im 0), (Rlt_dec (k * im) 0); try reflexivity;
        exfalso; nra.
Qed.

(** Settle the sign tests of [np_angle] from the hypotheses. *)
Ltac sign_cases :=
  repeat match goal with
         | |- context [Rlt_dec ?a ?b] => destruct (Rlt_dec a b); try lra
         | |- context [Rle_dec ?a ?b] => destruct (Rle_dec a b); try lra
         end.

Lemma tan_shift (x : R) : cos x <> 0 -> tan (x + PI) = tan x.
Proof.
  intros H. unfold tan. rewrite neg_sin, neg_cos. field. exact H.
Qed.

(** [np_angle] returns the phase of a unit sample given by its phase. *)
Lemma np_angle_unit (t : R) :
  - PI < t <= PI -> np_angle (cos t) (sin t) = t.
Proof.
  intros [Hlo Hhi]. pose proof PI_RGT_0 as Hpi. unfold np_angle.
  destruct (Rtotal_order t (- (PI / 2))) as [H|[H|H]].
  - (* third quadrant *)
    assert (Hc : cos t < 0).
    { rewrite <- cos_neg. apply cos_lt_0; lra. }
    assert (Hs : sin t < 0) by (apply sin_lt_0_var; lra).
    sign_cases.
    fold (tan t). rewrite <- tan_shift by lra.
    rewrite atan_tan by lra. lra.
  - subst t. rewrite cos_neg, sin_neg, cos_PI2, sin_PI2. sign_cases.
  - destruct (Rtotal_order t (PI / 2)) as [H'|[H'|H']].
    + assert (Hc : 0 < cos t) by (apply cos_gt_0; lra).
      sign_cases.
      fold (tan t). apply atan_tan. lra.
    + subst t. rewrite cos_PI2, sin_PI2. sign_cases.
    + assert (Hc : cos t < 0) by (apply cos_lt_0; lra).
      assert (Hs : 0 <= sin t) by (apply sin_ge_0; lra).
      sign_cases.
      fold (tan t).
      replace (tan t) with (tan (t - PI)).
      * rewrite atan_tan by lra. lra.
      * replace t with (t - PI + PI) at 2 by lra.
        symmetry. apply tan_shift.
        replace (t - PI) with (- (PI - t)) by lra.
        rewrite cos_neg, Rtrigo_facts.cos_pi_minus. lra.
Qed.

(** *** Rounding *)

Lemma Int_part_shift (x : R) (z : Z) :
  Int_part (x + IZR z) = (Int_part x + z)%Z.
Proof.
  symmetry. apply Int_part_spec.
  destruct (base_Int_part x) as [H1 H2].
  rewrite plus_IZR. lra.
Qed.

Lemma np_round_shift (x : R) (m : Z) :
  np_round (x + IZR (2 * m)) = (np_round x + 2 * m)%Z.
Proof.
  unfold np_round. rewrite Int_part_shift.
  replace (x + IZR (2 * m) - IZR (Int_part x + 2 * m))
    with (x - IZR (Int_part x)) by (rewrite plus_IZR; lra).
  replace (Z.even (Int_part x + 2 * m)) with (Z.even (Int_part x))
    by (rewrite Z.even_add_mul_2; reflexivity).
  destruct (Rlt_dec _ _); [reflexivity|].
  destruct (Rlt_dec _ _); [lia|].
  destruct (Z.even _); lia.
Qed.

Lemma np_round_near (x : R) (n : Z) :
  IZR n - 1 / 2 < x < IZR n + 1 / 2 -> np_round x = n.
Proof.
  intros [Hlo Hhi]. unfold np_round.
  destruct (Rlt_dec x (IZR n)) as [Hx|Hx].
  - replace (Int_part x) with (n - 1)%Z
      by (apply Int_part_spec; rewrite minus_IZR; lra).
    rewrite minus_IZR. sign_cases. lia.
  - replace (Int_part x) with n by (apply Int_part_spec; lra).
    sign_cases. reflexivity.
Qed.

Lemma np_round_tie (n : Z) :
  np_round (IZR n + 1 / 2) = if Z.even n then n else (n + 1)%Z.
Proof.
  unfold np_round.
  replace (Int_part (IZR n + 1 / 2)) with n by (apply Int_part_spec; lra).
  sign_cases. reflexivity.
Qed.

(** *** The symbol of a sample given by amplitude and phase *)

Lemma psk8_symbol_scale (k re im : R) :
  0 < k -> psk8_symbol (k * re) (k * im) = psk8_symbol re im.
Proof.
  intros Hk. unfold psk8_symbol, phase.
  rewrite np_angle_scale by exact Hk. reflexivity.
Qed.

Lemma psk8_symbol_principal (r deg : R) :
  0 < r -> -180 < deg <= 180 ->
  psk8_symbol (r * cos (radians deg)) (r * sin (radians deg)) =
  (np_round (deg / 45) mod 8)%Z.
Proof.
  intros Hr Hdeg. pose proof PI_RGT_0 as Hpi.
  rewrite psk8_symbol_scale by exact Hr.
  unfold psk8_symbol, phase.
  rewrite np_angle_unit by (unfold radians; split; nra).
  unfold radians. f_equal. f_equal. field. lra.
Qed.

Lemma radians_turn (deg : R) : radians deg = radians (deg - 360) + 2 * INR 1 * PI.
Proof. unfold radians. simpl. lra. Qed.

(** The decoder quantizes the phase to the nearest multiple of 45
    degrees, modulo 8. *)
Lemma psk8_symbol_quantizes (r deg : R) :
  0 < r -> 0 <= deg < 360 ->
  psk8_symbol (r * cos (radians deg)) (r * sin (radians deg)) =
  (np_round (deg / 45) mod 8)%Z.
Proof.
  intros Hr Hdeg.
  destruct (Rle_dec deg 180) as [H|H].
  - apply psk8_symbol_principal; lra.
  - rewrite (radians_turn deg), cos_period, sin_period.
    rewrite psk8_symbol_principal by lra.
    replace ((deg - 360) / 45) with (deg / 45 + IZR (2 * -4)) by (simpl; lra).
    rewrite np_round_shift.
    replace (np_round (deg / 45) + 2 * -4)%Z
      with (np_round (deg / 45) + (-1) * 8)%Z by lia.
    apply Z.mod_add. lia.
Qed.

(** C7.  The symbol index of a sample depends on its phase only, not on
    its amplitude [r]; a phase of [45 * k] degrees gives index [k] for
    each of the eight classes, and a phase from 337.5 up to 360 degrees
    (from -22.5 up to 0) gives index 0 again. *)
Theorem psk8_symbol_by_phase (r : R) :
  0 < r ->
  (forall re im, psk8_symbol (r * re) (r * im) = psk8_symbol re im) /\
  (forall k : Z, (0 <= k < 8)%Z ->
     psk8_symbol (r * cos (radians (45 * IZR k)))
                 (r * sin (radians (45 * IZR k))) = k) /\
  (forall deg, 337.5 <= deg < 360 ->
     psk8_symbol (r * cos (radians deg)) (r * sin (radians deg)) = 0%Z) /\
  (forall deg, -22.5 <= deg < 0 ->
     psk8_symbol (r * cos (radians deg)) (r * sin (radians deg)) = 0%Z).
Proof.
  intros Hr. split; [|split; [|split]].
  - intros re im. apply psk8_symbol_scale, Hr.
  - intros k [Hk0 Hk8].
    apply IZR_le in Hk0. apply IZR_lt in Hk8.
    rewrite psk8_symbol_quantizes by lra.
    rewrite (np_round_near _ k) by lra.
    apply Z.mod_small. split; [apply le_IZR | apply lt_IZR]; lra.
  - intros deg [Hlo Hhi].
    rewrite psk8_symbol_quantizes by lra.
    destruct Hlo as [Hlo|Hlo].
    + rewrite (np_round_near _ 8) by lra. reflexivity.
    + replace (deg / 45) with (IZR 7 + 1 / 2) by lra.
      rewrite np_round_tie. reflexivity.
  - intros deg [Hlo Hhi].
    rewrite psk8_symbol_principal by lra.
    destruct Hlo as [Hlo|Hlo].
    + rewrite (np_round_near _ 0) by lra. reflexivity.
    + replace (deg / 45) with (IZR (-1) + 1 / 2) by lra.
      rewrite np_round_tie. reflexivity.
Qed.

(** A sample of amplitude 2 at 135 degrees is symbol 3. *)
Lemma psk8_symbol_at_135_degrees :
  psk8_symbol (2 * cos (radians (45 * IZR 3)))
              (2 * sin (radians (45 * IZR 3))) = 3%Z.
Proof.
  destruct (psk8_symbol_by_phase 2) as (_ & H & _); [lra|].
  apply H. lia.
Defined.

End PhaseFacts.


(** * Further properties of the scripts *)

(** ** Which replies pass *)

Module ReplyFacts.
Import PySeqFacts VerdictFacts.

Lemma starts_with_message (S R : bytes) :
  eqb (upto R S) S = true <-> exists T, R = S ++ T.
Proof.
  rewrite bytes_eqb_eq. split.
  - intros H. exists (from R S). rewrite <- H at 1.
    unfold upto, from. symmetry. apply firstn_skipn.
  - intros [T ->]. apply upto_app.
Qed.

Lemma not_starting (S R : bytes) :
  eqb (upto R S) S = false -> forall T, R <> S ++ T.
Proof.
  intros H T E.
  assert (C : eqb (upto R S) S = true)
    by (apply starts_with_message; exists T; exact E).
  congruence.
Qed.

(** Equal positions throughout and nothing missing: the message is
    there. *)
Lemma no_mismatch_no_shortfall (S R : bytes) :
  mismatches R S = 0 -> (List.length S <= List.length R)%nat ->
  upto R S = S.
Proof.
  unfold mismatches, upto. revert S.
  induction R as [|a R IH]; intros [|b S] Hm Hl; simpl in *;
    try reflexivity; try lia.
  pose proof (mismatches_bounds Byte.eqb R S) as Hb.
  destruct (Byte.eqb a b) eqn:E; [|lia].
  apply byte_eqb_eq in E. subst b.
  f_equal. apply IH; lia.
Qed.

End ReplyFacts.

(** X1.  [test_freq_offset] returns [True] exactly for the replies that
    consist of the sent message followed by bytes of which at most five
    are non-zero (none at all included). *)
Theorem afc_passes_exactly (S R : bytes) :
  TestAfc.returns (TestAfc.check_result S R) = true <->
  exists T, R = S ++ T /\ count_nonzero T <= 5.
Proof.
  unfold TestAfc.check_result.
  destruct (eqb R S) eqn:Eq.
  - apply VerdictFacts.bytes_eqb_eq in Eq. subst R. simpl.
    split; [|reflexivity].
    intros _. exists []. rewrite app_nil_r. simpl. split; [reflexivity | lia].
  - destruct (truthy R && eqb (upto R S) S) eqn:Pre.
    + apply andb_true_iff in Pre. destruct Pre as [_ Pre].
      apply ReplyFacts.starts_with_message in Pre. destruct Pre as [T ->].
      rewrite PySeqFacts.from_app. cbv zeta.
      destruct (Z.leb_spec (count_nonzero T) 5); simpl.
      * split; [intros _; exists T; split; [reflexivity | assumption]
               | reflexivity].
      * split; [discriminate|].
        intros [T' [E H']]. apply app_inv_head in E. subst T'. lia.
    + assert (F : TestAfc.returns
                    (if truthy R
                     then TestAfc.FailBER
                            (mismatches R S + Z.max 0 (len S - len R))
                            (Z.max (len S) 1) (len R)
                     else TestAfc.FailNoData) = false)
        by (destruct (truthy R); reflexivity).
      cbv zeta. rewrite F. split; [discriminate|].
      intros [T [-> _]]. exfalso.
      rewrite PySeqFacts.upto_app, VerdictFacts.bytes_eqb_refl, andb_true_r
        in Pre.
      destruct S, T; simpl in Pre; discriminate.
Qed.

(** X2.  [test_with_verbose] prints PASS exactly for the replies that
    consist of the sent message followed by zero bytes only; its branch
    for an exact match is never taken, an exact match being reported by
    the first branch with 0 trailing zeros. *)
Theorem verbose_passes_exactly (S R : bytes) :
  (Test2400sAfc.verdict_of (Test2400sAfc.check_result S R) = PASS <->
   exists T, R = S ++ T /\ count_nonzero T = 0) /\
  Test2400sAfc.check_result S R <> Test2400sAfc.PassExact /\
  Test2400sAfc.check_result S S = Test2400sAfc.PassZeros 0.
Proof.
  split; [|split].
  - unfold Test2400sAfc.check_result.
    destruct (eqb (upto R S) S) eqn:Pre.
    + apply ReplyFacts.starts_with_message in Pre. destruct Pre as [T ->].
      rewrite PySeqFacts.from_app. cbv zeta.
      destruct (Z.eqb_spec (count_nonzero T) 0); simpl.
      * split; [intros _; exists T; split; [reflexivity | assumption]
               | reflexivity].
      * split; [discriminate|].
        intros [T' [E H']]. apply app_inv_head in E. subst T'. contradiction.
    + pose proof (ReplyFacts.not_starting S R Pre) as N.
      destruct (eqb R S) eqn:Eq.
      * apply VerdictFacts.bytes_eqb_eq in Eq. exfalso.
        apply (N []). rewrite app_nil_r. exact Eq.
      * simpl. split; [discriminate|].
        intros [T [E _]]. exfalso. exact (N T E).
  - unfold Test2400sAfc.check_result.
    destruct (eqb (upto R S) S) eqn:Pre.
    + cbv zeta. destruct (_ =? 0); discriminate.
    + destruct (eqb R S) eqn:Eq; [|discriminate].
      apply VerdictFacts.bytes_eqb_eq in Eq. subst R.
      unfold upto in Pre. rewrite firstn_all in Pre.
      rewrite VerdictFacts.bytes_eqb_refl in Pre. discriminate.
  - pose proof (VerdictFacts.verbose_trailing S []) as H.
    rewrite app_nil_r in H. exact H.
Qed.

(** X3.  [test_awgn] prints PASS exactly for the replies that start with
    the sent message: whatever follows it, of any length and content, is
    accepted. *)
Theorem awgn_passes_exactly (S R : bytes) :
  TestAwgn.verdict_of (TestAwgn.check_result S R) = PASS <->
  exists T, R = S ++ T.
Proof.
  unfold TestAwgn.check_result.
  destruct (eqb (upto R S) S) eqn:Pre.
  - apply ReplyFacts.starts_with_message in Pre.
    split; [intros _; exact Pre | reflexivity].
  - simpl. split; [discriminate|].
    intros [T E]. exfalso. exact (ReplyFacts.not_starting S R Pre T E).
Qed.

(** X4.  When [test_freq_offset] reports a rate, the error count behind
    it is at least 1 and at most the length of the sent message, which
    is also the denominator: the rate printed lies above 0% and is at
    most 100%. *)
Theorem afc_rate_bounds (S R : bytes) (errors denominator got : Z) :
  TestAfc.check_result S R = TestAfc.FailBER errors denominator got ->
  1 <= errors <= denominator /\ denominator = len S /\ got = len R.
Proof.
  unfold TestAfc.check_result.
  destruct (eqb R S); [discriminate|].
  destruct (truthy R && eqb (upto R S) S) eqn:Pre.
  - cbv zeta. destruct (_ <=? 5); discriminate.
  - destruct (truthy R) eqn:Tr; [|discriminate].
    simpl in Pre. cbv zeta. intros [= <- <- <-].
    pose proof (PySeqFacts.mismatches_bounds Byte.eqb R S) as Hb.
    fold (mismatches R S) in Hb.
    assert (HS : 1 <= len S).
    { destruct S; [|unfold len; simpl List.length; lia].
      destruct R; discriminate. }
    assert (H1 : 1 <= mismatches R S + Z.max 0 (len S - len R)).
    { destruct (Z.eq_dec (mismatches R S) 0) as [Z0|]; [|lia].
      destruct (Z_le_gt_dec (len S) (len R)) as [Hl|]; [|lia].
      exfalso.
      rewrite (ReplyFacts.no_mismatch_no_shortfall S R Z0) in Pre
        by (unfold len in Hl; lia).
      rewrite VerdictFacts.bytes_eqb_refl in Pre. discriminate. }
    repeat split; lia.
Qed.

Lemma afc_rate_bounds_witness :
  1 <= 1 <= 7 /\ 7 = len Test2400sAfc.test_data /\
  8 = len Test2400sAfc.one_wrong_one_extra.
Proof.
  apply (afc_rate_bounds Test2400sAfc.test_data
                         Test2400sAfc.one_wrong_one_extra 1 7 8).
  reflexivity.
Defined.


(** ** Reading the capture line *)

Module CaptureFacts.
Import PyStr.

Section Map.
Context {A B : Type} (eqA : A -> A -> bool) (eqB : B -> B -> bool).
Context (f : A -> B).
Hypothesis eq_f : forall a b, eqB (f a) (f b) = eqA a b.

Lemma starts_with_map (pat s : list A) :
  PySeq.starts_with eqB (map f pat) (map f s) = PySeq.starts_with eqA pat s.
Proof.
  revert s; induction pat as [|p pat IH]; intros [|c s]; simpl;
    try reflexivity.
  rewrite eq_f, IH. reflexivity.
Qed.

Lemma contains_map (pat s : list A) :
  PySeq.contains eqB (map f pat) (map f s) = PySeq.contains eqA pat s.
Proof.
  induction s as [|c s IH]; cbn [map PySeq.contains].
  - rewrite <- (starts_with_map pat []). reflexivity.
  - rewrite <- (starts_with_map pat (c :: s)), <- IH. reflexivity.
Qed.

End Map.

Lemma to_N_eqb (a b : byte) : N.eqb (Byte.to_N a) (Byte.to_N b) = Byte.eqb a b.
Proof.
  destruct (Byte.eqb a b) eqn:E.
  - apply byte_dec_bl in E. subst b. apply N.eqb_refl.
  - apply N.eqb_neq. intros H. apply Byte.eqb_false in E. apply E.
    assert (H' : Some a = Some b)
      by (rewrite <- (Byte.of_to_N a), <- (Byte.of_to_N b), H; reflexivity).
    congruence.
Qed.

Lemma decode_map (b : list byte) (text : str) :
  decode b = Some text -> text = map Byte.to_N b.
Proof.
  revert text; induction b as [|c b IH]; intros text; simpl.
  - intros [= <-]. reflexivity.
  - destruct (Byte.to_N c <? 128)%N; [|discriminate].
    destruct (decode b) as [t|]; [|discriminate].
    intros [= <-]. rewrite (IH t eq_refl). reflexivity.
Qed.

Lemma decode_app (a b : list byte) :
  decode (a ++ b) =
  match decode a, decode b with
  | Some ta, Some tb => Some (ta ++ tb)
  | _, _ => None
  end.
Proof.
  induction a as [|c a IH]; simpl.
  - destruct (decode b); reflexivity.
  - destruct (Byte.to_N c <? 128)%N; [|reflexivity].
    rewrite IH. destruct (decode a), (decode b); reflexivity.
Qed.

Lemma lit_bytes (marker : string) :
  lit marker = map Byte.to_N (PyBytes.lit marker).
Proof.
  unfold lit, PyBytes.lit, list_byte_of_string.
  rewrite map_map. apply map_ext.
  intros [[] [] [] [] [] [] [] []]; reflexivity.
Qed.

(** The marker is in the bytes exactly when it is in their text. *)
Lemma marker_in_text (marker : string) (chunk : list byte) (text : str) :
  decode chunk = Some text ->
  PyBytes.contains (PyBytes.lit marker) chunk = contains (lit marker) text.
Proof.
  intros H. apply decode_map in H. subst text.
  unfold PyBytes.contains, contains.
  rewrite lit_bytes.
  symmetry. apply (contains_map Byte.eqb N.eqb Byte.to_N to_N_eqb).
Qed.

(** *** [find] *)

Section Find.
Context {A : Type} (eqA : A -> A -> bool).
Hypothesis eqA_eq : forall a b, eqA a b = true <-> a = b.

Lemma starts_with_app_long (pat s t : list A) :
  (List.length pat <= List.length s)%nat ->
  PySeq.starts_with eqA pat (s ++ t) = PySeq.starts_with eqA pat s.
Proof.
  revert s; induction pat as [|p pat IH]; intros [|c s] H; simpl in *;
    try reflexivity; try lia.
  rewrite IH by lia. reflexivity.
Qed.

Lemma starts_with_itself (pat t : list A) :
  PySeq.starts_with eqA pat (pat ++ t) = true.
Proof.
  apply (PySeqFacts.starts_with_spec eqA eqA_eq). exists t. reflexivity.
Qed.

Lemma find_at_start (pat s : list A) :
  PySeq.starts_with eqA pat s = true -> PySeq.find eqA pat s = 0.
Proof. intros H. destruct s; simpl; rewrite H; reflexivity. Qed.

(** [find] returns the place of the first occurrence. *)
Lemma find_first (init : list A) (l : A) (pre post : list A) :
  PySeq.contains eqA (init ++ [l]) (pre ++ init) = false ->
  PySeq.find eqA (init ++ [l]) (pre ++ (init ++ [l]) ++ post)
  = PySeq.len pre.
Proof.
  unfold PySeq.len. induction pre as [|c pre IH]; intros H.
  - simpl app. apply find_at_start, starts_with_itself.
  - cbn [app PySeq.contains] in H. apply orb_false_iff in H.
    destruct H as [H1 H2].
    cbn [app PySeq.find].
    replace (c :: pre ++ (init ++ [l]) ++ post)
      with ((c :: pre ++ init) ++ [l] ++ post)
      by (simpl; rewrite <- !app_assoc; reflexivity).
    rewrite starts_with_app_long
      by (simpl; rewrite !length_app; simpl; lia).
    rewrite H1, (IH H2).
    destruct (Z.ltb_spec (Z.of_nat (List.length pre)) 0); [lia|].
    simpl List.length. lia.
Qed.

End Find.

(** *** [strip] and the first line *)

Lemma lstrip_keeps (a b : str) (c : N) :
  isspace c = false -> lstrip (a ++ c :: b) = lstrip a ++ c :: b.
Proof.
  intros Hc. induction a as [|x a IH]; simpl.
  - rewrite Hc. reflexivity.
  - destruct (isspace x); [exact IH | reflexivity].
Qed.

Lemma lstrip_suffix (s : str) : exists pre, s = pre ++ lstrip s.
Proof.
  induction s as [|x s [pre IH]]; simpl.
  - exists []. reflexivity.
  - destruct (isspace x).
    + exists (x :: pre). simpl. rewrite <- IH. reflexivity.
    + exists []. reflexivity.
Qed.

Lemma first_line_stops (path t : str) :
  forallb (fun c => negb (c =? 10)%N) path = true ->
  t = [] \/ (exists t', t = 10%N :: t') ->
  first_line (path ++ t) = path.
Proof.
  intros Hp Ht. induction path as [|c path IH]; simpl in *.
  - destruct Ht as [->|[t' ->]]; reflexivity.
  - apply andb_true_iff in Hp. destruct Hp as [Hc Hp].
    apply negb_true_iff in Hc. rewrite Hc, (IH Hp). reflexivity.
Qed.

Lemma clean_path_parts (path : str) :
  CaptureLine.clean_path path = true ->
  (exists c p, path = c :: p /\ isspace c = false) /\
  (exists p c, path = p ++ [c] /\ isspace c = false) /\
  forallb (fun c => negb (c =? 10)%N) path = true.
Proof.
  unfold CaptureLine.clean_path. intros H.
  apply andb_true_iff in H. destruct H as [H H3].
  apply andb_true_iff in H. destruct H as [H1 H2].
  destruct path as [|c p]; [discriminate|].
  apply negb_true_iff in H1, H2.
  repeat split; [exists c, p; auto | | exact H3].
  destruct (exists_last (l := c :: p)) as (p' & c' & E); [discriminate|].
  exists p', c'. split; [exact E|].
  rewrite E, last_last in H2. exact H2.
Qed.

(** A clean path is what is left of its line. *)
Lemma path_of_line (path rest : str) :
  CaptureLine.clean_path path = true ->
  first_line (strip (path ++ 10%N :: rest)) = path.
Proof.
  intros H. apply clean_path_parts in H.
  destruct H as ((c & p & E1 & Hc) & (p' & c' & E2 & Hc') & Hlf).
  unfold strip.
  assert (L1 : lstrip (path ++ 10%N :: rest) = path ++ 10%N :: rest)
    by (rewrite E1; simpl; rewrite Hc; reflexivity).
  rewrite L1.
  assert (R : rev (path ++ 10%N :: rest)
              = rev (10%N :: rest) ++ c' :: rev p')
    by (rewrite rev_app_distr, E2, rev_unit; reflexivity).
  rewrite R, lstrip_keeps by exact Hc'.
  assert (R' : rev (c' :: rev p') = path)
    by (rewrite E2; simpl; rewrite rev_involutive; reflexivity).
  rewrite rev_app_distr, R'.
  apply first_line_stops; [exact Hlf|].
  destruct (lstrip_suffix (rev (10%N :: rest))) as [pre Hpre].
  apply (f_equal (@rev N)) in Hpre.
  rewrite rev_involutive, rev_app_distr in Hpre.
  destruct (rev (lstrip (rev (10%N :: rest)))) as [|x t'];
    [left; reflexivity|].
  right. exists t'. simpl in Hpre. congruence.
Qed.

Lemma extract_line (chunk : list byte) (pre path rest : str)
      (old : option str) :
  decode chunk = Some (pre ++ lit "FILE:" ++ path ++ 10%N :: rest) ->
  contains (lit "FILE:") (pre ++ lit "FILE") = false ->
  CaptureLine.clean_path path = true ->
  CaptureWait.extract chunk old = Some (Some path).
Proof.
  intros Hd Hpre Hp. unfold CaptureWait.extract. rewrite Hd.
  assert (F : find (lit "FILE:")
                   (pre ++ lit "FILE:" ++ path ++ 10%N :: rest)
              = len pre)
    by (apply (find_first N.eqb N.eqb_eq (lit "FILE") 58%N); exact Hpre).
  rewrite F. cbv zeta.
  destruct (Z.leb_spec 0 (len pre)) as [_|C];
    [|unfold len in C; lia].
  unfold slice_from, len.
  replace (Z.to_nat (Z.of_nat (List.length pre) + 5))
    with (List.length pre + 5)%nat by lia.
  rewrite skipn_app, skipn_all2 by lia.
  replace (List.length pre + 5 - List.length pre)%nat with 5%nat by lia.
  simpl skipn. simpl app at 1. rewrite path_of_line by exact Hp.
  reflexivity.
Qed.

Lemma wait_loop_unmarked (recvs : list CaptureWait.recv_result) :
  Forall CaptureLine.no_marker recvs ->
  forall response pcm_file,
    CaptureWait.wait_loop recvs response pcm_file
    = CaptureWait.Done pcm_file.
Proof.
  intros H. apply wait_loop_without_marker.
  eapply Forall_impl; [|exact H]. intros [chunk|]; simpl; auto.
Qed.

End CaptureFacts.

(** X5.  In [test_afc.py], [test_2400s_afc.py] and [test_awgn.py]: if no
    chunk read contains the five bytes of [FILE:] in full -- however the
    bytes add up over the chunks -- the wait ends without a capture
    file, whatever else arrives. *)
Theorem no_whole_marker_no_capture (recvs : list CaptureWait.recv_result) :
  Forall CaptureLine.no_marker recvs ->
  CaptureWait.wait_for_pcm_file recvs = CaptureWait.Done None /\
  CaptureWait.capture_file (CaptureWait.wait_for_pcm_file recvs) = None.
Proof.
  intros H. unfold CaptureWait.wait_for_pcm_file.
  rewrite (CaptureFacts.wait_loop_unmarked recvs H). split; reflexivity.
Qed.

Lemma no_whole_marker_no_capture_witness :
  CaptureWait.wait_for_pcm_file CaptureWait.split = CaptureWait.Done None /\
  CaptureWait.capture_file (CaptureWait.wait_for_pcm_file CaptureWait.split)
  = None.
Proof.
  apply (no_whole_marker_no_capture CaptureWait.split).
  repeat constructor.
Defined.

(** X6.  In [test_afc.py], [test_2400s_afc.py] and [test_awgn.py]: a
    chunk of ASCII text that holds, after its first [FILE:], a path and
    a line feed sets the capture file to exactly that path,
    provided the path is not empty, has no white space at either end and
    no line feed inside; chunks read later that do not contain the
    marker leave it unchanged. *)
Theorem whole_line_gives_path
        (chunk : list byte) (pre path rest : PyStr.str)
        (later : list CaptureWait.recv_result) (response : bytes)
        (old : option PyStr.str) :
  PyStr.decode chunk
  = Some (pre ++ PyStr.lit "FILE:" ++ path ++ 10%N :: rest) ->
  PyStr.contains (PyStr.lit "FILE:") (pre ++ PyStr.lit "FILE") = false ->
  CaptureLine.clean_path path = true ->
  Forall CaptureLine.no_marker later ->
  CaptureWait.wait_loop (CaptureWait.Recv chunk :: later) response old
  = CaptureWait.Done (Some path) /\
  CaptureWait.capture_file (CaptureWait.Done (Some path)) = Some path.
Proof.
  intros Hd Hpre Hp Hl.
  assert (Hne : truthy chunk = true).
  { destruct chunk; [|reflexivity]. simpl in Hd.
    destruct pre; discriminate. }
  assert (Hm : contains (lit "FILE:") chunk = true).
  { change (PyBytes.contains (PyBytes.lit "FILE:") chunk = true).
    rewrite (CaptureFacts.marker_in_text "FILE:" chunk _ Hd).
    apply (PySeqFacts.contains_spec N.eqb N.eqb_eq).
    exists pre, (path ++ 10%N :: rest). reflexivity. }
  split.
  - cbn [CaptureWait.wait_loop]. rewrite Hne, Hm.
    rewrite (CaptureFacts.extract_line chunk pre path rest old Hd Hpre Hp).
    destruct (contains (lit "OK:SENDBUFFER") (response ++ chunk));
      [reflexivity|].
    apply CaptureFacts.wait_loop_unmarked. exact Hl.
  - apply CaptureFacts.clean_path_parts in Hp.
    destruct Hp as ((c & p & -> & _) & _). reflexivity.
Qed.

Lemma whole_line_gives_path_witness :
  CaptureWait.wait_loop
    (CaptureWait.Recv (lit CaptureWait.answer) :: []) [] None
  = CaptureWait.Done (Some (PyStr.lit CaptureWait.path)) /\
  CaptureWait.capture_file (CaptureWait.Done (Some (PyStr.lit CaptureWait.path)))
  = Some (PyStr.lit CaptureWait.path).
Proof.
  apply (whole_line_gives_path
           (lit CaptureWait.answer) [] (PyStr.lit CaptureWait.path)
           (PyStr.lit ("OK:SENDBUFFER" ++ CaptureWait.LF))
           [] [] None);
    [reflexivity | reflexivity | reflexivity | constructor].
Defined.


(** ** Reading until the end of the data *)

Module ReceiveFacts.
Import Receive.

Lemma recv_loop_chunks (chunks : list bytes)
      (rest : list CaptureWait.recv_result) (data : bytes) :
  Forall (fun chunk => chunk <> []) chunks ->
  recv_loop (map CaptureWait.Recv chunks ++ rest) data
  = recv_loop rest (data ++ List.concat chunks).
Proof.
  intros H. revert data.
  induction H as [|chunk chunks Hc _ IH]; intros data; simpl.
  - rewrite app_nil_r. reflexivity.
  - rewrite VerdictFacts.truthy_true by exact Hc.
    rewrite IH, app_assoc. reflexivity.
Qed.

Lemma decode_wait_rounds (pre : list CaptureWait.recv_result) :
  Forall (fun r => has_complete r = false) pre ->
  forall rest data rx_data,
    decode_wait (pre ++ rest) data rx_data =
    decode_wait rest (skipn (List.length pre) data)
                (rx_data ++ delivered (firstn (List.length pre) data)).
Proof.
  induction 1 as [|c pre Hc _ IH]; intros rest data rx_data.
  - simpl. rewrite app_nil_r. reflexivity.
  - cbn [app decode_wait List.length]. rewrite Hc.
    destruct data as [|[rx|] data]; cbn [data_read firstn skipn delivered].
    + rewrite IH. destruct (List.length pre); simpl; rewrite !app_nil_r;
        reflexivity.
    + rewrite IH. destruct rx; simpl.
      * reflexivity.
      * rewrite <- app_assoc. reflexivity.
    + rewrite IH. reflexivity.
Qed.

End ReceiveFacts.

(** X7.  [recv_all] returns exactly the bytes that arrive before the
    first timeout or the end of the stream, whatever the chunks they
    arrive in, and reads nothing of what would come after. *)
Theorem recv_all_until_silence
        (chunks : list bytes) (stop : CaptureWait.recv_result)
        (later : list CaptureWait.recv_result) :
  Forall (fun chunk => chunk <> []) chunks ->
  stop = CaptureWait.Timeout \/ stop = CaptureWait.Recv [] ->
  Receive.recv_all (map CaptureWait.Recv chunks ++ stop :: later)
  = List.concat chunks /\
  Receive.recv_all (map CaptureWait.Recv chunks) = List.concat chunks.
Proof.
  intros Hc Hs. unfold Receive.recv_all. split.
  - rewrite ReceiveFacts.recv_loop_chunks by exact Hc.
    destruct Hs as [-> | ->]; reflexivity.
  - rewrite <- (app_nil_r (map _ chunks)).
    rewrite ReceiveFacts.recv_loop_chunks by exact Hc. reflexivity.
Qed.

Lemma recv_all_until_silence_witness :
  Receive.recv_all
    (map CaptureWait.Recv [lit "OK:"; lit "RECORD"]
     ++ CaptureWait.Timeout :: [CaptureWait.Recv (lit "FILE:late")])
  = List.concat [lit "OK:"; lit "RECORD"] /\
  Receive.recv_all (map CaptureWait.Recv [lit "OK:"; lit "RECORD"])
  = List.concat [lit "OK:"; lit "RECORD"].
Proof.
  apply (recv_all_until_silence [lit "OK:"; lit "RECORD"] CaptureWait.Timeout
           [CaptureWait.Recv (lit "FILE:late")]).
  - repeat constructor; discriminate.
  - left; reflexivity.
Defined.

(** X8.  In the wait for the decoded bytes, the round in which a control
    chunk containing [COMPLETE] is read ends the loop before the data
    socket is read: [rx_data] holds what the data reads of the earlier
    rounds delivered, and nothing the data socket delivers from that
    round on. *)
Theorem decode_wait_stops_at_complete
        (before : list CaptureWait.recv_result) (c : CaptureWait.recv_result)
        (after data : list CaptureWait.recv_result) :
  Forall (fun r => Receive.has_complete r = false) before ->
  Receive.has_complete c = true ->
  Receive.decode_wait (before ++ c :: after) data []
  = (Receive.delivered (firstn (List.length before) data), true).
Proof.
  intros Hb Hc.
  rewrite ReceiveFacts.decode_wait_rounds by exact Hb.
  cbn [Receive.decode_wait]. rewrite Hc. reflexivity.
Qed.

Lemma decode_wait_stops_at_complete_witness :
  Receive.decode_wait
    ([CaptureWait.Timeout]
     ++ CaptureWait.Recv (lit "RXAUDIOINJECT:COMPLETE") :: [])
    [CaptureWait.Recv (lit "Test"); CaptureWait.Recv (lit "123")] []
  = (Receive.delivered
       (firstn 1 [CaptureWait.Recv (lit "Test"); CaptureWait.Recv (lit "123")]),
     true).
Proof.
  apply (decode_wait_stops_at_complete
           [CaptureWait.Timeout]
           (CaptureWait.Recv (lit "RXAUDIOINJECT:COMPLETE")) []
           [CaptureWait.Recv (lit "Test"); CaptureWait.Recv (lit "123")]).
  - repeat constructor.
  - reflexivity.
Defined.


(** ** The control dialogue of the reference suite *)

Module DialogueFacts.
Import PyStr TestRefPcmClient.

Lemma str_contains_app (pat s t : str) :
  contains pat s = true -> contains pat (s ++ t) = true.
Proof.
  unfold contains. rewrite !(PySeqFacts.contains_spec N.eqb N.eqb_eq).
  intros [pre [post ->]]. exists pre, (post ++ t).
  rewrite <- !app_assoc. reflexivity.
Qed.

Lemma str_contains_inside (pat line a b : str) :
  contains pat line = true -> contains pat (a ++ line ++ b) = true.
Proof.
  unfold contains. rewrite !(PySeqFacts.contains_spec N.eqb N.eqb_eq).
  intros [pre [post ->]]. exists (a ++ pre), (post ++ b).
  rewrite <- !app_assoc. reflexivity.
Qed.

Lemma recv_until_acc (pattern : str) (recvs : list CaptureWait.recv_result) :
  forall acc text,
    decode (Receive.delivered recvs) = Some text ->
    exists data rest,
      recv_until pattern recvs acc = Some data /\
      acc ++ text = data ++ rest /\
      contains pattern data = contains pattern (acc ++ text).
Proof.
  induction recvs as [|[chunk|] recvs IH]; intros acc text Hd;
    cbn [Receive.delivered recv_until] in *.
  - injection Hd as <-. exists acc, []. rewrite app_nil_r. auto.
  - rewrite CaptureFacts.decode_app in Hd.
    destruct (decode chunk) as [t1|]; [|discriminate].
    destruct (decode (Receive.delivered recvs)) as [t2|] eqn:D2;
      [|discriminate].
    injection Hd as <-.
    destruct (contains pattern (acc ++ t1)) eqn:C.
    + exists (acc ++ t1), t2. rewrite app_assoc. repeat split.
      rewrite C. symmetry. apply str_contains_app, C.
    + destruct (IH (acc ++ t1) t2 eq_refl) as (data & rest & H1 & H2 & H3).
      exists data, rest. rewrite app_assoc. auto.
  - apply IH. exact Hd.
Qed.

(** *** Where the read stops *)

Lemma quiet_nil (pattern acc : str) : ReadUntil.quiet pattern acc [].
Proof. intros [|x b1] c b2 t E; discriminate. Qed.

Lemma quiet_timeout (pattern acc : str) recvs :
  ReadUntil.quiet pattern acc recvs -> ReadUntil.quiet pattern acc (CaptureWait.Timeout :: recvs).
Proof.
  intros H [|x b1] c b2 t E D; [discriminate|].
  injection E as <- E. apply (H b1 c b2 t E D).
Qed.

Lemma quiet_recv (pattern acc : str) chunk t1 recvs :
  decode chunk = Some t1 ->
  contains pattern (acc ++ t1) = false ->
  ReadUntil.quiet pattern (acc ++ t1) recvs ->
  ReadUntil.quiet pattern acc (CaptureWait.Recv chunk :: recvs).
Proof.
  intros D1 C H [|x b1] c b2 t E D; unfold ReadUntil.text_of in D.
  - injection E as <- _. cbn [app Receive.delivered] in D.
    rewrite app_nil_r in D. congruence.
  - injection E as <- E.
    cbn [app Receive.delivered] in D.
    rewrite CaptureFacts.decode_app, D1 in D.
    destruct (decode (Receive.delivered (b1 ++ [CaptureWait.Recv c])))
      as [t'|] eqn:D'; [|discriminate].
    injection D as <-. rewrite app_assoc. apply (H b1 c b2 t' E D').
Qed.

Lemma recv_until_first_match (pattern : str)
      (recvs : list CaptureWait.recv_result) :
  forall acc text,
    decode (Receive.delivered recvs) = Some text ->
    (exists before chunk after tb,
       recvs = before ++ CaptureWait.Recv chunk :: after /\
       decode (Receive.delivered (before ++ [CaptureWait.Recv chunk]))
       = Some tb /\
       recv_until pattern recvs acc = Some (acc ++ tb) /\
       contains pattern (acc ++ tb) = true /\
       ReadUntil.quiet pattern acc before) \/
    (recv_until pattern recvs acc = Some (acc ++ text) /\
     ReadUntil.quiet pattern acc recvs).
Proof.
  induction recvs as [|[chunk|] recvs IH]; intros acc text Hd;
    cbn [Receive.delivered recv_until] in *.
  - injection Hd as <-. right. rewrite app_nil_r.
    split; [reflexivity | apply quiet_nil].
  - rewrite CaptureFacts.decode_app in Hd.
    destruct (decode chunk) as [t1|] eqn:D1; [|discriminate].
    destruct (decode (Receive.delivered recvs)) as [t2|] eqn:D2;
      [|discriminate].
    injection Hd as <-.
    destruct (contains pattern (acc ++ t1)) eqn:C.
    + left. exists [], chunk, recvs, t1.
      cbn [app Receive.delivered]. rewrite app_nil_r.
      repeat split; try assumption. apply quiet_nil.
    + destruct (IH (acc ++ t1) t2 eq_refl)
        as [(before & c & after & tb & E & D & R & M & Q) | [R Q]].
      * left. exists (CaptureWait.Recv chunk :: before), c, after, (t1 ++ tb).
        subst recvs. cbn [app Receive.delivered].
        rewrite CaptureFacts.decode_app, D1, D, app_assoc.
        repeat split; try assumption.
        apply (quiet_recv pattern acc chunk t1 before D1 C Q).
      * right. rewrite app_assoc. split; [exact R|].
        apply (quiet_recv pattern acc chunk t1 recvs D1 C Q).
  - destruct (IH acc text Hd)
      as [(before & c & after & tb & E & D & R & M & Q) | [R Q]].
    + left. exists (CaptureWait.Timeout :: before), c, after, tb.
      subst recvs. cbn [app Receive.delivered].
      repeat split; try assumption. apply quiet_timeout, Q.
    + right. split; [exact R | apply quiet_timeout, Q].
Qed.

(** *** Lines *)

Lemma split_lf_first (s : str) :
  exists line lines b, split_lf s = line :: lines /\ s = line ++ b.
Proof.
  induction s as [|c s (line & lines & b & E & Hs)]; simpl.
  - exists [], [], []. auto.
  - destruct (c =? 10)%N.
    + exists [], (split_lf s), (c :: s). auto.
    + rewrite E. exists (c :: line), lines, b. simpl. rewrite <- Hs. auto.
Qed.

Lemma line_occurs (s line : str) :
  In line (split_lf s) -> exists a b, s = a ++ line ++ b.
Proof.
  revert line. induction s as [|c s IH]; intros line; simpl.
  - intros [<-|[]]. exists [], []. reflexivity.
  - destruct (c =? 10)%N.
    + intros [<-|H].
      * exists [], (c :: s). reflexivity.
      * destruct (IH line H) as (a & b & ->). exists (c :: a), b. reflexivity.
    + destruct (split_lf_first s) as (l0 & ls & b0 & E & Hs).
      rewrite E in *. intros [<-|H].
      * exists [], b0. simpl. rewrite <- Hs. reflexivity.
      * destruct (IH line (or_intror H)) as (a & b & ->).
        exists (c :: a), b. reflexivity.
Qed.

Lemma first_status_line_spec (lines : list str) :
  first_status_line lines = true <->
  exists pre line post,
    lines = pre ++ line :: post /\ Forall no_status pre /\
    contains (lit "STATUS:RX:") line = true /\
    contains (lit "NO DCD") line = false.
Proof.
  induction lines as [|l lines IH]; simpl.
  - split; [discriminate|]. intros (pre & line & post & E & _).
    destruct pre; discriminate.
  - destruct (contains (lit "STATUS:RX:") l) eqn:S.
    + rewrite negb_true_iff. split.
      * intros N. exists [], l, lines. auto.
      * intros ([|p pre] & line & post & E & Hpre & _ & N).
        -- injection E as <- _. exact N.
        -- injection E as <- _. apply Forall_inv in Hpre.
           unfold no_status in Hpre. congruence.
    + rewrite IH. split.
      * intros (pre & line & post & -> & Hpre & H).
        exists (l :: pre), line, post. repeat split; try apply H.
        constructor; assumption.
      * intros ([|p pre] & line & post & E & Hpre & H1 & H2).
        -- injection E as <- _. congruence.
        -- injection E as <- ->. apply Forall_inv_tail in Hpre.
           exists pre, line, post. auto.
Qed.

(** *** The summary *)

Lemma passed_bound (results : list (string * bool)) :
  passed results <= len results.
Proof.
  unfold passed, len. induction results as [|[m []] rs IH]; simpl in *; lia.
Qed.

Lemma all_passed (results : list (string * bool)) :
  passed results = len results <-> Forall (fun r => snd r = true) results.
Proof.
  induction results as [|[m b] rs IH].
  - split; [constructor | reflexivity].
  - pose proof (passed_bound rs) as Hb.
    unfold passed, len in *. destruct b; simpl in *.
    + split.
      * intros H. constructor; [reflexivity | apply IH; lia].
      * intros H. apply Forall_inv_tail, IH in H. lia.
    + split; [lia|]. intros H. apply Forall_inv in H. discriminate.
Qed.

End DialogueFacts.

(** X9.  [recv_until] stops at the first chunk after which the text
    received so far contains the pattern, and returns the text up to
    and including that chunk; chunks that follow are not read.  When no
    chunk completes the pattern it reads until the deadline and returns
    all the text.  The search is in the accumulated text, not in the
    last chunk: for ASCII text, what is returned is an initial part of
    the text received and contains the pattern exactly when the text
    received contains it, however the text is cut into chunks and
    whatever timeouts fall in between. *)
Theorem recv_until_stops_at_first_match
        (pattern : PyStr.str) (recvs : list CaptureWait.recv_result)
        (text : PyStr.str) :
  ReadUntil.text_of recvs = Some text ->
  exists data,
    TestRefPcmClient.recv_until pattern recvs [] = Some data /\
    (exists rest, text = data ++ rest) /\
    PyStr.contains pattern data = PyStr.contains pattern text /\
    ((exists before chunk after,
        recvs = before ++ CaptureWait.Recv chunk :: after /\
        ReadUntil.text_of (before ++ [CaptureWait.Recv chunk]) = Some data /\
        PyStr.contains pattern data = true /\
        ReadUntil.no_match_during pattern before) \/
     (data = text /\ ReadUntil.no_match_during pattern recvs)).
Proof.
  intros H. unfold ReadUntil.text_of in H.
  destruct (DialogueFacts.recv_until_acc pattern recvs [] text H)
    as (data & rest & H1 & H2 & H3).
  exists data. split; [exact H1|]. split; [exists rest; exact H2|].
  split; [exact H3|].
  destruct (DialogueFacts.recv_until_first_match pattern recvs [] text H)
    as [(before & c & after & tb & E & D & R & M & Q) | [R Q]];
    cbn [app] in R; rewrite H1 in R; injection R as ->.
  - left. exists before, c, after. repeat split; assumption.
  - right. split; [reflexivity | exact Q].
Qed.

(** The pattern cut in two by the first chunk: the read stops after
    the chunk that ends it, before the status line that follows. *)
Lemma recv_until_stops_at_first_match_witness :
  TestRefPcmClient.recv_until ReadUntil.pattern ReadUntil.answer []
  = Some (PyStr.lit "OK:RXAUDIOINJECT:COMPLETE").
Proof.
  destruct (recv_until_stops_at_first_match
              ReadUntil.pattern ReadUntil.answer
              (PyStr.lit "OK:RXAUDIOINJECT:COMPLETE STATUS:RX:NO DCD")
              eq_refl)
    as (data & H & _).
  rewrite H. f_equal.
  revert H. vm_compute. intros [= <-]. reflexivity.
Defined.

(** X10.  [test_mode] reports a detected carrier exactly when the first
    line of the responses that contains [STATUS:RX:] does not contain
    [NO DCD]; status lines after the first one are not looked at. *)
Theorem got_dcd_first_status_line (all_responses : PyStr.str) :
  TestRefPcmClient.got_dcd all_responses = true <->
  exists pre line post,
    TestRefPcmClient.split_lf all_responses = pre ++ line :: post /\
    Forall TestRefPcmClient.no_status pre /\
    PyStr.contains (PyStr.lit "STATUS:RX:") line = true /\
    PyStr.contains (PyStr.lit "NO DCD") line = false.
Proof.
  unfold TestRefPcmClient.got_dcd.
  rewrite <- DialogueFacts.first_status_line_spec.
  destruct (PyStr.contains (PyStr.lit "STATUS:RX:") all_responses) eqn:G;
    [reflexivity|].
  split; [discriminate|]. intros H.
  apply DialogueFacts.first_status_line_spec in H.
  destruct H as (pre & line & post & E & _ & S & _).
  assert (I : In line (TestRefPcmClient.split_lf all_responses))
    by (rewrite E; apply in_elt).
  destruct (DialogueFacts.line_occurs _ _ I) as (a & b & Hs).
  rewrite Hs, (DialogueFacts.str_contains_inside _ _ a b S) in G.
  discriminate.
Qed.

(** X11.  [main] of the reference suite returns [True] exactly when
    [test_mode] succeeds for every one of the twelve modes. *)
Theorem suite_passes_when_all_modes_pass (test_mode : string -> bool) :
  TestRefPcmClient.main test_mode = true <->
  forall mode, In mode TestRefPcmClient.modes -> test_mode mode = true.
Proof.
  unfold TestRefPcmClient.main. cbv zeta.
  rewrite Z.eqb_eq, DialogueFacts.all_passed.
  unfold TestRefPcmClient.results.
  rewrite Forall_map, Forall_forall. reflexivity.
Qed.


(** ** The analyzer's report *)

Module ReportFacts.
Import ComparePcm.

Lemma even_halves (n : Z) : Z.even n = true <-> n = 2 * (n / 2).
Proof.
  split.
  - intros H. pose proof (Zmod_even n) as M. rewrite H in M.
    pose proof (Z.div_mod n 2). lia.
  - intros H. rewrite H, Z.even_mul. reflexivity.
Qed.

Lemma fields_h_length (data : bytes) :
  len (fields_h data) = len data / 2.
Proof.
  unfold len.
  assert (G : forall n (d : bytes), (List.length d <= n)%nat ->
              Z.of_nat (List.length (fields_h d))
              = Z.of_nat (List.length d) / 2).
  { induction n as [|n IH]; intros d Hn.
    - destruct d; [reflexivity | simpl in Hn; lia].
    - destruct d as [|lo [|hi rest]]; try reflexivity.
      cbn [fields_h List.length]. rewrite !Nat2Z.inj_succ.
      rewrite IH by (simpl in Hn; lia).
      replace (Z.succ (Z.succ (Z.of_nat (List.length rest))))
        with (Z.of_nat (List.length rest) + 1 * 2) by lia.
      rewrite Z.div_add by lia. lia. }
  apply (G (List.length data)). lia.
Qed.

Lemma int16_range (lo hi : byte) : -32768 <= int16 lo hi <= 32767.
Proof.
  unfold int16.
  pose proof (Byte.to_N_bounded lo). pose proof (Byte.to_N_bounded hi).
  cbv zeta.
  destruct (Z.ltb_spec (Z.of_N (Byte.to_N lo) + 256 * Z.of_N (Byte.to_N hi))
                       32768); lia.
Qed.

Lemma fields_h_range (data : bytes) :
  Forall (fun s => -32768 <= s <= 32767) (fields_h data).
Proof.
  assert (G : forall n (d : bytes), (List.length d <= n)%nat ->
              Forall (fun s => -32768 <= s <= 32767) (fields_h d)).
  { induction n as [|n IH]; intros d Hn.
    - destruct d; [constructor | simpl in Hn; lia].
    - destruct d as [|lo [|hi rest]]; try constructor.
      + apply int16_range.
      + apply IH. simpl in Hn. lia. }
  apply (G (List.length data)). lia.
Qed.

(** [np.min] and [np.max] return a lower and an upper bound that is
    one of the samples. *)
Lemma fold_min_spec (a : list Z) (x : Z) :
  In (fold_left Z.min a x) (x :: a) /\
  Forall (fun s => fold_left Z.min a x <= s) (x :: a).
Proof.
  revert x. induction a as [|y a IH]; intros x.
  - simpl. split; [left; reflexivity | repeat constructor; lia].
  - cbn [fold_left]. destruct (IH (Z.min x y)) as [Hin Hall].
    apply Forall_cons_iff in Hall. destruct Hall as [Hm Hall]. split.
    + destruct Hin as [E|Hin]; [|right; right; exact Hin].
      rewrite <- E. destruct (Z.min_spec x y) as [[_ ->]|[_ ->]];
        [left | right; left]; reflexivity.
    + repeat constructor; try lia. exact Hall.
Qed.

Lemma fold_max_spec (a : list Z) (x : Z) :
  In (fold_left Z.max a x) (x :: a) /\
  Forall (fun s => s <= fold_left Z.max a x) (x :: a).
Proof.
  revert x. induction a as [|y a IH]; intros x.
  - simpl. split; [left; reflexivity | repeat constructor; lia].
  - cbn [fold_left]. destruct (IH (Z.max x y)) as [Hin Hall].
    apply Forall_cons_iff in Hall. destruct Hall as [Hm Hall]. split.
    + destruct Hin as [E|Hin]; [|right; right; exact Hin].
      rewrite <- E. destruct (Z.max_spec x y) as [[_ ->]|[_ ->]];
        [right; left | left]; reflexivity.
    + repeat constructor; try lia. exact Hall.
Qed.

(** Every value falls into exactly one bucket of the histogram. *)
Lemma buckets_partition (a : list Z) :
  np_count (fun x => x <? 100) a
  + np_count (fun x => (100 <=? x) && (x <? 3000)) a
  + np_count (fun x => (3000 <=? x) && (x <? 10000)) a
  + np_count (fun x => 10000 <=? x) a
  = len a.
Proof.
  unfold np_count, len. induction a as [|x a IH]; [reflexivity|].
  cbn [filter].
  destruct (Z.ltb_spec x 100), (Z.leb_spec 100 x), (Z.ltb_spec x 3000),
    (Z.leb_spec 3000 x), (Z.ltb_spec x 10000), (Z.leb_spec 10000 x);
    try lia; cbn [andb List.length]; lia.
Qed.

Lemma np_count_nonneg (f : Z -> bool) (a : list Z) : 0 <= np_count f a.
Proof. unfold np_count, len. lia. Qed.

(** What a returned report was computed from. *)
Lemma analyze_pcm_ok (data : bytes) (r : report) :
  analyze_pcm data = Ok r ->
  let a := map Z.abs (fields_h data) in
  Z.even (len data) = true /\ 20 <= len data / 2 /\
  np_min (fields_h data) = Ok (min_sample r) /\
  np_max (fields_h data) = Ok (max_sample r) /\
  r = {| size := len data;
         samples := len data / 2;
         min_sample := min_sample r;
         max_sample := max_sample r;
         peak := Z.max (Z.abs (min_sample r)) (Z.abs (max_sample r));
         silent := np_count (fun x => x <? 100) a;
         low := np_count (fun x => (100 <=? x) && (x <? 3000)) a;
         med := np_count (fun x => (3000 <=? x) && (x <? 10000)) a;
         high := np_count (fun x => 10000 <=? x) a;
         silent_pct := pct (np_count (fun x => x <? 100) a) (len data / 2);
         low_pct := pct (np_count (fun x => (100 <=? x) && (x <? 3000)) a)
                        (len data / 2);
         med_pct := pct (np_count (fun x => (3000 <=? x) && (x <? 10000)) a)
                        (len data / 2);
         high_pct := pct (np_count (fun x => 10000 <=? x) a) (len data / 2) |}.
Proof.
  unfold analyze_pcm.
  destruct (struct_unpack_h (len data / 2) data) as [samples|e] eqn:U;
    [|discriminate].
  apply AnalyzeFacts.unpack_ok in U. destruct U as [Hev ->].
  cbn [bind].
  destruct (np_min (fields_h data)) as [lo|]; [|discriminate].
  destruct (np_max (fields_h data)) as [hi|]; [|discriminate].
  cbn [bind]. unfold overall_peak_search.
  destruct (Z.leb_spec (len data / 2 / 2 + 1) 10) as [|Hp]; [discriminate|].
  cbn [bind]. intros [= <-]. cbn.
  repeat split; try assumption.
  pose proof (Z.div_mod (len data / 2) 2). 
  pose proof (Z.mod_pos_bound (len data / 2) 2). lia.
Qed.

End ReportFacts.

(** X12.  [analyze_pcm] returns a report exactly for the inputs of even
    length that hold at least 20 samples (40 bytes): below that, the
    search for the overall peak past the first ten bins has nothing to
    search. *)
Theorem analyze_pcm_reports_exactly (data : bytes) :
  (exists r, ComparePcm.analyze_pcm data = ComparePcm.Ok r) <->
  Z.even (len data) = true /\ 40 <= len data.
Proof.
  split.
  - intros [r H]. apply ReportFacts.analyze_pcm_ok in H.
    destruct H as (Hev & H20 & _). split; [exact Hev|].
    apply ReportFacts.even_halves in Hev. lia.
  - intros [Hev H40]. unfold ComparePcm.analyze_pcm.
    pose proof Hev as Hh. apply ReportFacts.even_halves in Hh.
    unfold ComparePcm.struct_unpack_h.
    rewrite <- Hh, Z.eqb_refl. cbn [ComparePcm.bind].
    destruct data as [|lo [|hi rest]];
      [unfold len in H40; simpl in H40; lia
      |unfold len in H40; simpl in H40; lia|].
    cbn [ComparePcm.fields_h ComparePcm.np_min ComparePcm.np_max
         ComparePcm.bind].
    unfold ComparePcm.overall_peak_search.
    destruct (Z.leb_spec (len (lo :: hi :: rest) / 2 / 2 + 1) 10) as [C|_].
    + exfalso.
      pose proof (Z.div_mod (len (lo :: hi :: rest) / 2) 2).
      pose proof (Z.mod_pos_bound (len (lo :: hi :: rest) / 2) 2). lia.
    + cbn [ComparePcm.bind]. eexists. reflexivity.
Qed.

(** X13.  In every report the four histogram buckets are counts between
    0 and the number of samples that add up to the number of samples:
    every sample falls in exactly one bucket. *)
Theorem histogram_partitions_samples (data : bytes) (r : ComparePcm.report) :
  ComparePcm.analyze_pcm data = ComparePcm.Ok r ->
  0 <= ComparePcm.silent r <= ComparePcm.samples r /\
  0 <= ComparePcm.low r <= ComparePcm.samples r /\
  0 <= ComparePcm.med r <= ComparePcm.samples r /\
  0 <= ComparePcm.high r <= ComparePcm.samples r /\
  ComparePcm.silent r + ComparePcm.low r + ComparePcm.med r
  + ComparePcm.high r = ComparePcm.samples r /\
  ComparePcm.samples r = len (ComparePcm.fields_h data).
Proof.
  intros H. apply ReportFacts.analyze_pcm_ok in H. cbv zeta in H.
  destruct H as (Hev & H20 & _ & _ & ->). cbn.
  pose proof (ReportFacts.buckets_partition
                (map Z.abs (ComparePcm.fields_h data))) as P.
  unfold len in P at 1. rewrite length_map in P.
  fold (len (ComparePcm.fields_h data)) in P.
  rewrite ReportFacts.fields_h_length in P.
  set (a := map Z.abs (ComparePcm.fields_h data)) in *.
  pose proof (ReportFacts.np_count_nonneg (fun x => x <? 100) a).
  pose proof (ReportFacts.np_count_nonneg
                (fun x => (100 <=? x) && (x <? 3000)) a).
  pose proof (ReportFacts.np_count_nonneg
                (fun x => (3000 <=? x) && (x <? 10000)) a).
  pose proof (ReportFacts.np_count_nonneg (fun x => 10000 <=? x) a).
  rewrite ReportFacts.fields_h_length.
  repeat split; lia.
Qed.

Lemma histogram_partitions_samples_witness :
  ComparePcm.silent ComparePcm.silent_capture_report
  + ComparePcm.low ComparePcm.silent_capture_report
  + ComparePcm.med ComparePcm.silent_capture_report
  + ComparePcm.high ComparePcm.silent_capture_report
  = ComparePcm.samples ComparePcm.silent_capture_report.
Proof.
  apply (histogram_partitions_samples
           ComparePcm.silence ComparePcm.silent_capture_report).
  reflexivity.
Defined.

(** X14.  In every report [min_sample] and [max_sample] are samples of
    the capture that bound all its samples, they lie in the 16-bit range,
    and [peak] bounds the magnitude of every sample and is at most
    32768. *)
Theorem report_bounds_samples (data : bytes) (r : ComparePcm.report) :
  ComparePcm.analyze_pcm data = ComparePcm.Ok r ->
  In (ComparePcm.min_sample r) (ComparePcm.fields_h data) /\
  In (ComparePcm.max_sample r) (ComparePcm.fields_h data) /\
  -32768 <= ComparePcm.min_sample r <= ComparePcm.max_sample r /\
  ComparePcm.max_sample r <= 32767 /\
  0 <= ComparePcm.peak r <= 32768 /\
  Forall (fun s => ComparePcm.min_sample r <= s <= ComparePcm.max_sample r
                   /\ Z.abs s <= ComparePcm.peak r)
         (ComparePcm.fields_h data).
Proof.
  intros H. apply ReportFacts.analyze_pcm_ok in H. cbv zeta in H.
  destruct H as (_ & _ & Hmin & Hmax & E).
  assert (Hp : ComparePcm.peak r
               = Z.max (Z.abs (ComparePcm.min_sample r))
                       (Z.abs (ComparePcm.max_sample r)))
    by (rewrite E; reflexivity).
  pose proof (ReportFacts.fields_h_range data) as R.
  destruct (ComparePcm.fields_h data) as [|x a]; [discriminate|].
  cbn [ComparePcm.np_min ComparePcm.np_max] in Hmin, Hmax.
  injection Hmin as Hmin. injection Hmax as Hmax.
  destruct (ReportFacts.fold_min_spec a x) as [Imin Amin].
  destruct (ReportFacts.fold_max_spec a x) as [Imax Amax].
  rewrite Hmin in Imin, Amin. rewrite Hmax in Imax, Amax.
  rewrite Forall_forall in R, Amin, Amax.
  pose proof (R _ Imin). pose proof (R _ Imax).
  pose proof (Amin _ Imax).
  repeat split; try assumption; try lia.
  apply Forall_forall. intros s Hs.
  pose proof (Amin s Hs). pose proof (Amax s Hs). lia.
Qed.

Lemma report_bounds_samples_witness :
  In 0 (ComparePcm.fields_h ComparePcm.silence) /\
  In 0 (ComparePcm.fields_h ComparePcm.silence) /\
  -32768 <= 0 <= 0 /\ 0 <= 32767 /\ 0 <= 0 <= 32768 /\
  Forall (fun s => 0 <= s <= 0 /\ Z.abs s <= 0)
         (ComparePcm.fields_h ComparePcm.silence).
Proof.
  apply (report_bounds_samples
           ComparePcm.silence ComparePcm.silent_capture_report).
  reflexivity.
Defined.


(** ** The shape of the peak list *)

Module PeakListFacts.
Import ComparePcm PeakList.

Lemma combine_seq_nth (l : list Q) (start : nat) (b : bin) :
  In b (combine (seq start (List.length l)) l) ->
  (start <= fst b < start + List.length l)%nat /\
  snd b = nth (fst b - start) l 0%Q.
Proof.
  revert start. induction l as [|m l IH]; intros start; simpl.
  - intros [].
  - intros [<-|H].
    + simpl. rewrite Nat.sub_diag. split; [lia | reflexivity].
    + destruct (IH (S start) H) as [Hr Hn]. split; [lia|].
      rewrite Hn. replace (fst b - start)%nat with (S (fst b - S start))
        by lia. reflexivity.
Qed.

Lemma enumerate_nth (magnitude : list Q) (b : bin) :
  In b (enumerate magnitude) ->
  (fst b < List.length magnitude)%nat /\
  snd b = nth (fst b) magnitude 0%Q.
Proof.
  intros H. apply combine_seq_nth in H. destruct H as [Hr Hn].
  rewrite Nat.sub_0_r in Hn. split; [lia | exact Hn].
Qed.

Section Sorted.
Context {A : Type} (R : A -> A -> Prop).

Lemma sorted_filter (p : A -> bool) (l : list A) :
  StronglySorted R l -> StronglySorted R (filter p l).
Proof.
  induction 1 as [|x l Hs IH Hx]; simpl; [constructor|].
  destruct (p x); [|exact IH].
  constructor; [exact IH|].
  apply incl_Forall with (l1 := l); [apply incl_filter | exact Hx].
Qed.

Lemma sorted_firstn (n : nat) (l : list A) :
  StronglySorted R l -> StronglySorted R (firstn n l).
Proof.
  intros H. rewrite <- (firstn_skipn n l) in H.
  apply SpectrumFacts.sorted_app in H. apply H.
Qed.

Lemma sorted_map {B} (f : A -> B) (S : B -> B -> Prop) (l : list A) :
  (forall a b, R a b -> S (f a) (f b)) ->
  StronglySorted R l -> StronglySorted S (map f l).
Proof.
  intros HRS. induction 1 as [|x l Hs IH Hx]; simpl; constructor.
  - exact IH.
  - apply Forall_map. eapply Forall_impl; [|exact Hx].
    intros a. apply HRS.
Qed.

End Sorted.

Lemma reported_listed (freqs magnitude : list Q) :
  reported_top_freqs freqs magnitude
  = map (peak_at freqs magnitude) (map fst (listed freqs magnitude)).
Proof.
  rewrite SpectrumFacts.reported_filter.
  unfold by_decreasing_magnitude, argsort, listed.
  rewrite <- map_rev, firstn_map, filter_map_swap, firstn_map.
  reflexivity.
Qed.

Lemma in_firstn {A} (n : nat) (l : list A) (x : A) :
  In x (firstn n l) -> In x l.
Proof.
  intros H. rewrite <- (firstn_skipn n l). apply in_or_app. left. exact H.
Qed.

Lemma listed_in (freqs magnitude : list Q) (b : bin) :
  In b (listed freqs magnitude) ->
  In b (enumerate magnitude) /\ above_100 freqs (fst b) = true.
Proof.
  unfold listed. intros H.
  apply in_firstn, filter_In in H. destruct H as [H Ha].
  apply in_firstn, in_rev in H.
  split; [|exact Ha].
  eapply Permutation_in; [symmetry; apply SpectrumFacts.sort_perm | exact H].
Qed.

Lemma listed_sorted (freqs magnitude : list Q) :
  StronglySorted (fun a b => le_bin b a) (listed freqs magnitude).
Proof.
  unfold listed. apply sorted_firstn, sorted_filter, sorted_firstn.
  apply SpectrumFacts.sorted_rev, SpectrumFacts.sort_sorted.
Qed.

End PeakListFacts.

(** X15.  The reported peak list has at most five entries; every entry
    is the frequency and magnitude of one bin of the spectrum, at a
    frequency above 100 Hz; and the entries are in order of
    non-increasing magnitude. *)
Theorem reported_top_freqs_shape (freqs magnitude : list Q) :
  (List.length (ComparePcm.reported_top_freqs freqs magnitude) <= 5)%nat /\
  Forall (fun p => exists i, (i < List.length magnitude)%nat /\
                             p = ComparePcm.peak_at freqs magnitude i /\
                             (100 < fst p)%Q)
         (ComparePcm.reported_top_freqs freqs magnitude) /\
  StronglySorted (fun p q => (snd q <= snd p)%Q)
                 (ComparePcm.reported_top_freqs freqs magnitude).
Proof.
  split; [|split].
  - unfold ComparePcm.reported_top_freqs. apply firstn_le_length.
  - rewrite PeakListFacts.reported_listed, map_map.
    apply Forall_map, Forall_forall. intros b Hb.
    apply PeakListFacts.listed_in in Hb. destruct Hb as [He Ha].
    apply PeakListFacts.enumerate_nth in He. destruct He as [Hl _].
    exists (fst b). repeat split; [exact Hl|].
    unfold ComparePcm.above_100, ComparePcm.Qlt_bool in Ha.
    apply negb_true_iff in Ha. simpl.
    apply Qnot_le_lt. intros C. apply Qle_bool_iff in C. congruence.
  - rewrite PeakListFacts.reported_listed, map_map.
    rewrite (map_ext_in _ (fun b => (nth (fst b) freqs 0%Q, snd b))).
    + apply (PeakListFacts.sorted_map (fun a b => ComparePcm.le_bin b a));
        [|apply PeakListFacts.listed_sorted].
      intros a b Hab. apply Qle_bool_iff in Hab. exact Hab.
    + intros b Hb. apply PeakListFacts.listed_in in Hb.
      destruct Hb as [He _]. apply PeakListFacts.enumerate_nth in He.
      destruct He as [_ Hn]. unfold ComparePcm.peak_at.
      rewrite Hn. reflexivity.
Qed.


(** ** The peak list, whatever the order of equal magnitudes *)

Module ArgsortFacts.
Import ComparePcm.





(** The arrangement [argsort] is one of them, so that what is proved
    for every arrangement holds of [reported_top_freqs] as well. *)
Lemma NoDup_distinct (l : list nat) : NoDup l -> distinct l = true.
Proof.
  induction 1 as [|i l Hi _ IH]; simpl; [reflexivity|].
  rewrite IH, andb_true_r. apply negb_true_iff.
  destruct (existsb (Nat.eqb i) l) eqn:E; [|reflexivity].
  apply existsb_exists in E. destruct E as (k & Hk & E).
  apply Nat.eqb_eq in E. subst k. contradiction.
Qed.

Lemma sorted_ascending (magnitude : list Q) (order : list nat) :
  StronglySorted (fun i j => no_weaker magnitude j i) order ->
  ascending magnitude order = true.
Proof.
  induction 1 as [|i l _ IH Hx]; [reflexivity|].
  destruct l as [|j rest]; [reflexivity|].
  change (ascending magnitude (i :: j :: rest))
    with (Qle_bool (nth i magnitude 0%Q) (nth j magnitude 0%Q)
          && ascending magnitude (j :: rest)).
  rewrite IH, andb_true_r.
  apply Qle_bool_iff. apply Forall_inv in Hx. exact Hx.
Qed.

Lemma enumerate_indices (l : list Q) (start : nat) :
  map fst (combine (seq start (List.length l)) l)
  = seq start (List.length l).
Proof.
  revert start. induction l as [|m l IH]; intros start; simpl;
    [reflexivity | rewrite IH; reflexivity].
Qed.

Lemma argsort_perm (magnitude : list Q) :
  Permutation (seq 0 (List.length magnitude)) (argsort magnitude).
Proof.
  unfold argsort. rewrite <- (enumerate_indices magnitude 0).
  apply Permutation_map, SpectrumFacts.sort_perm.
Qed.

Lemma sorted_indices (magnitude : list Q) (l : list bin) :
  Forall (fun b => snd b = nth (fst b) magnitude 0%Q) l ->
  StronglySorted le_bin l ->
  StronglySorted (fun i j => no_weaker magnitude j i) (map fst l).
Proof.
  intros Hn. induction 1 as [|b l _ IH Hx]; simpl; constructor.
  - apply IH. apply Forall_inv_tail in Hn. exact Hn.
  - apply Forall_map. rewrite Forall_forall in *.
    intros c Hc. unfold no_weaker.
    rewrite <- (Hn b) by (left; reflexivity).
    rewrite <- (Hn c) by (right; exact Hc).
    apply Qle_bool_iff. apply (Hx c Hc).
Qed.

Lemma argsort_is_argsort (magnitude : list Q) :
  is_argsort magnitude (argsort magnitude) = true.
Proof.
  pose proof (argsort_perm magnitude) as P.
  unfold is_argsort. rewrite !andb_true_iff. repeat split.
  - apply Nat.eqb_eq. rewrite <- (Permutation_length P). apply length_seq.
  - apply forallb_forall. intros i Hi. apply Nat.ltb_lt.
    apply (Permutation_in _ (Permutation_sym P)), in_seq in Hi. lia.
  - apply NoDup_distinct.
    apply (Permutation_NoDup P), seq_NoDup.
  - apply sorted_ascending, sorted_indices;
      [|apply SpectrumFacts.sort_sorted].
    apply Forall_forall. intros b Hb.
    apply (Permutation_in _ (Permutation_sym (SpectrumFacts.sort_perm _)))
      in Hb.
    apply PeakListFacts.enumerate_nth in Hb. apply Hb.
Qed.

Lemma reported_top_freqs_of_argsort (freqs magnitude : list Q) :
  reported_top_freqs freqs magnitude
  = reported_of freqs magnitude (argsort magnitude).
Proof. reflexivity. Qed.


End ArgsortFacts.



(** ** Reading the capture and placing the symbols *)

Module SamplingFacts.
Import PreambleSampling.

Lemma normalized_range (s : Z) :
  -32768 <= s <= 32767 ->
  (-1 <= inject_Z s / 32768 /\ inject_Z s / 32768 < 1)%Q.
Proof.
  intros H. unfold Qle, Qlt, Qdiv, Qmult, Qinv, inject_Z. simpl. lia.
Qed.

Lemma in_range (n i : Z) : In i (range n) <-> 0 <= i < n.
Proof.
  unfold range. rewrite in_map_iff. split.
  - intros (k & <- & Hk). apply in_seq in Hk. lia.
  - intros H. exists (Z.to_nat i). split; [lia|]. apply in_seq. lia.
Qed.

Lemma len_range (n : Z) : 0 <= n -> len (range n) = n.
Proof.
  intros H. unfold len, range. rewrite length_map, length_seq. lia.
Qed.

Lemma filter_keeps_all {A} (f : A -> bool) (l : list A) :
  (forall x, In x l -> f x = true) -> filter f l = l.
Proof.
  induction l as [|x l IH]; intros H; simpl; [reflexivity|].
  rewrite (H x (or_introl eq_refl)), IH; [reflexivity|].
  intros y Hy. apply H. right. exact Hy.
Qed.

(** The centre of a symbol that fits into the filtered signal lies in
    it. *)
Lemma center_in_range (filt_len sps i : Z) :
  1 <= sps -> 0 <= i < filt_len / sps ->
  0 <= center sps i < filt_len.
Proof.
  intros Hs Hi. unfold center.
  pose proof (Z.mul_div_le filt_len sps ltac:(lia)).
  pose proof (Z.div_pos sps 2 ltac:(lia) ltac:(lia)).
  assert (sps / 2 < sps) by (apply Z.div_lt_upper_bound; lia).
  nia.
Qed.

End SamplingFacts.

(** X16.  [read_pcm_file] raises [struct.error] for a file of odd
    length and otherwise returns one sample for every two bytes -- none
    for an empty file -- each of them in [-1, 1). *)
Theorem read_pcm_file_normalizes (data : bytes) (sample_rate : Z) :
  (Z.odd (len data) = true ->
   PreambleSampling.read_pcm_file data sample_rate
   = ComparePcm.Raise ComparePcm.StructError) /\
  (Z.even (len data) = true ->
   exists samples,
     PreambleSampling.read_pcm_file data sample_rate
     = ComparePcm.Ok (samples, sample_rate) /\
     len samples = len data / 2 /\
     Forall (fun x => (-1 <= x /\ x < 1)%Q) samples).
Proof.
  unfold PreambleSampling.read_pcm_file. split.
  - intros Hodd. rewrite AnalyzeFacts.unpack_odd by exact Hodd. reflexivity.
  - intros Hev. apply ReportFacts.even_halves in Hev.
    unfold ComparePcm.struct_unpack_h. rewrite <- Hev, Z.eqb_refl.
    cbn [ComparePcm.bind]. eexists. split; [reflexivity|]. split.
    + unfold len. rewrite length_map.
      apply ReportFacts.fields_h_length.
    + apply Forall_map.
      eapply Forall_impl; [|apply ReportFacts.fields_h_range].
      intros s. apply SamplingFacts.normalized_range.
Qed.

(** X17.  The bound check in the sampling loop never rejects an index:
    for a window of at least one sample, one symbol is sampled for every
    whole symbol period of the filtered signal, at the centre of the
    period, and every index sampled lies inside the signal. *)
Theorem symbol_indices_all_sampled (filt_len samples_per_symbol : Z) :
  1 <= samples_per_symbol -> 0 <= filt_len ->
  PreambleSampling.symbol_indices filt_len samples_per_symbol
  = map (PreambleSampling.center samples_per_symbol)
        (PreambleSampling.range (filt_len / samples_per_symbol)) /\
  len (PreambleSampling.symbol_indices filt_len samples_per_symbol)
  = filt_len / samples_per_symbol /\
  Forall (fun idx => 0 <= idx < filt_len)
         (PreambleSampling.symbol_indices filt_len samples_per_symbol).
Proof.
  intros Hs Hf.
  assert (E : PreambleSampling.symbol_indices filt_len samples_per_symbol
              = map (PreambleSampling.center samples_per_symbol)
                    (PreambleSampling.range (filt_len / samples_per_symbol))).
  { unfold PreambleSampling.symbol_indices. cbv zeta.
    apply SamplingFacts.filter_keeps_all. intros idx Hidx.
    apply in_map_iff in Hidx. destruct Hidx as (i & <- & Hi).
    apply SamplingFacts.in_range in Hi.
    apply Z.ltb_lt. apply SamplingFacts.center_in_range; assumption. }
  rewrite E. split; [reflexivity|]. split.
  - unfold len. rewrite length_map.
    apply SamplingFacts.len_range. apply Z.div_pos; lia.
  - apply Forall_map, Forall_forall. intros i Hi.
    apply SamplingFacts.in_range in Hi.
    apply SamplingFacts.center_in_range; assumption.
Qed.

Lemma symbol_indices_all_sampled_witness :
  PreambleSampling.symbol_indices 4781 20
  = map (PreambleSampling.center 20) (PreambleSampling.range (4781 / 20)) /\
  len (PreambleSampling.symbol_indices 4781 20) = 4781 / 20 /\
  Forall (fun idx => 0 <= idx < 4781) (PreambleSampling.symbol_indices 4781 20).
Proof. apply (symbol_indices_all_sampled 4781 20); lia. Defined.

(** X18.  For a capture with at least 4800 samples from the start of the
    signal on, the decoder samples [(4801 - w) // w] symbols for a window
    of [w] samples per symbol ([1 <= w <= 4800]): 239 symbols at the
    default of 20. *)
Theorem preamble_symbol_count (num_samples start_idx samples_per_symbol : Z) :
  start_idx + 4800 <= num_samples ->
  1 <= samples_per_symbol <= 4800 ->
  PreambleSampling.preamble_indices num_samples start_idx samples_per_symbol
  = Some (map (PreambleSampling.center samples_per_symbol)
              (PreambleSampling.range
                 ((4801 - samples_per_symbol) / samples_per_symbol))).
Proof.
  intros Hn Hs. unfold PreambleSampling.preamble_indices,
    PreambleSampling.demod_len, PreambleSampling.convolve_valid_len.
  rewrite Z.min_l by lia.
  assert (E : (samples_per_symbol =? 0) = false) by (apply Z.eqb_neq; lia).
  rewrite E. cbn [Z.eqb orb option_map].
  rewrite Z.max_l, Z.min_r by lia.
  replace (4800 - samples_per_symbol + 1) with (4801 - samples_per_symbol)
    by lia.
  f_equal.
  unfold PreambleSampling.symbol_indices. cbv zeta.
  apply SamplingFacts.filter_keeps_all. intros idx Hidx.
  apply in_map_iff in Hidx. destruct Hidx as (i & <- & Hi).
  apply SamplingFacts.in_range in Hi.
  apply Z.ltb_lt. apply SamplingFacts.center_in_range; [lia | assumption].
Qed.

Lemma preamble_symbol_count_default :
  PreambleSampling.preamble_indices 48000 1200 20
  = Some (map (PreambleSampling.center 20)
              (PreambleSampling.range ((4801 - 20) / 20))).
Proof. apply (preamble_symbol_count 48000 1200 20); lia. Defined.

(** ** How close the symbol is to the phase *)

Module PhaseSectors.
Import AnalyzePreamble PhaseFacts.
Local Open Scope R_scope.

(** X19.  A sample of non-zero amplitude whose phase lies within 22
    degrees of [45 k] degrees has the symbol index [k mod 8]: each of
    the eight sectors is decoded to its own index, up to half a degree
    from the boundary between two sectors (the phase arithmetic is on
    real numbers; at the boundary itself the rounding of the binary64
    phase decides). *)
Theorem psk8_symbol_within_sector (r deg : R) (k : Z) :
  0 < r -> -180 < deg < 360 ->
  45 * IZR k - 22 <= deg <= 45 * IZR k + 22 ->
  psk8_symbol (r * cos (radians deg)) (r * sin (radians deg)) = (k mod 8)%Z.
Proof.
  intros Hr Hdeg Hk.
  assert (E : np_round (deg / 45) = k) by (apply np_round_near; lra).
  destruct (Rle_dec deg 180) as [H|H].
  - rewrite psk8_symbol_principal by lra. rewrite E. reflexivity.
  - rewrite psk8_symbol_quantizes by lra. rewrite E. reflexivity.
Qed.

(** A phase of 100 degrees is in the sector of 90 degrees, and one of
    -100 degrees in the sector of 270. *)
Lemma psk8_symbol_within_sector_witness :
  psk8_symbol (2 * cos (radians 100)) (2 * sin (radians 100)) = 2%Z /\
  psk8_symbol (2 * cos (radians (-100))) (2 * sin (radians (-100))) = 6%Z.
Proof.
  split.
  - apply (psk8_symbol_within_sector 2 100 2); lra.
  - apply (psk8_symbol_within_sector 2 (-100) (-2)); lra.
Defined.

End PhaseSectors.
